(** * ComparisonSlider: the before/after divider of PixelLift

    A shallow embedding of [ComparisonSlider.tsx] (the component that keeps a
    percentage [sliderPosition] and a flag [isDragging]) and the properties
    its specification states about it.

    Numbers.  A JavaScript number is modelled by [number]: a rational
    (canonical, [Qc], so that equality is Leibniz equality), one of the two
    infinities, or [NaN].  The result of a subtraction, a product or a
    quotient of finite operands is rounded as IEEE 754 binary64 rounds it
    ([round64]: to nearest, ties to even, gradual underflow, overflow to an
    infinity).  The sign of zero is not modelled: a zero divisor is taken
    to be [+0], which is what a bounding box reports. *)

From Stdlib Require Import Bool List ZArith QArith Qcanon Qround Lia Lqa.
From Stdlib Require Import Ascii String.
Import ListNotations.

(** ** JavaScript numbers *)

Module JS.

Inductive number : Type :=
| NaN
| NegInfinity
| Fin (q : Qc)
| PosInfinity.

Definition Qc_of_Z (z : Z) : Qc := Q2Qc (inject_Z z).

Definition of_Z (z : Z) : number := Fin (Qc_of_Z z).

Definition is_finite (a : number) : bool :=
  match a with Fin _ => true | _ => false end.

(** The order of the extended line; [None] when an operand is [NaN]. *)
Definition compare (a b : number) : option comparison :=
  match a, b with
  | NaN, _ | _, NaN => None
  | NegInfinity, NegInfinity => Some Eq
  | NegInfinity, _ => Some Lt
  | _, NegInfinity => Some Gt
  | PosInfinity, PosInfinity => Some Eq
  | PosInfinity, _ => Some Gt
  | _, PosInfinity => Some Lt
  | Fin x, Fin y => Some (x ?= y)%Qc
  end.

(** [a <= b] as JavaScript evaluates it: false when an operand is [NaN]. *)
Definition leb (a b : number) : bool :=
  match compare a b with
  | Some Lt | Some Eq => true
  | _ => false
  end.

(** [Math.min(a, b)]: [NaN] if either argument is [NaN]. *)
Definition Math_min (a b : number) : number :=
  match compare a b with
  | None => NaN
  | Some Gt => b
  | Some _ => a
  end.

(** [Math.max(a, b)]: [NaN] if either argument is [NaN]. *)
Definition Math_max (a b : number) : number :=
  match compare a b with
  | None => NaN
  | Some Lt => b
  | Some _ => a
  end.

(** *** Rounding to binary64 *)

(** The integer nearest to [y], the even one of the two when [y] is half
    way between them. *)
Definition rne (y : Q) : Z :=
  let f := Qfloor y in
  match (y - inject_Z f ?= 1 # 2)%Q with
  | Lt => f
  | Gt => (f + 1)%Z
  | Eq => if Z.even f then f else (f + 1)%Z
  end.

(** A double is a multiple of [2 ^ -1074] (the least subnormal) with at
    most 53 significant bits.  For [Y] a nonnegative value counted in
    units of [2 ^ -1074], [binade_shift Y] is the number of low bits that
    do not fit: none while [Y < 2 ^ 53], that is in the subnormals and the
    first binade of normals. *)
Definition binade_shift (Y : Q) : Z := Z.max 0 (Z.log2 (Qfloor Y) - 52).

(** [Y] rounded to a multiple of [2 ^ binade_shift Y]. *)
Definition scaled (Y : Q) : Z :=
  (rne (Y / inject_Z (2 ^ binade_shift Y)) * 2 ^ binade_shift Y)%Z.

(** The double nearest to a nonnegative [q]; [Infinity] from
    [2 ^ 1024] on. *)
Definition round_pos (q : Q) : number :=
  let R := scaled (q * inject_Z (2 ^ 1074)) in
  if (2 ^ 2098 <=? R)%Z then PosInfinity
  else Fin (Q2Qc (inject_Z R / inject_Z (2 ^ 1074))).

(** [- a]. *)
Definition neg (a : number) : number :=
  match a with
  | NaN => NaN
  | NegInfinity => PosInfinity
  | Fin q => Fin (- q)
  | PosInfinity => NegInfinity
  end.

(** The binary64 value of the exact result [q] of an operation. *)
Definition round64 (q : Qc) : number :=
  match (q ?= 0)%Qc with
  | Eq => Fin q
  | Gt => round_pos q
  | Lt => neg (round_pos (- q)%Qc)
  end.

(** [a - b]. *)
Definition sub (a b : number) : number :=
  match a, b with
  | NaN, _ | _, NaN => NaN
  | Fin x, Fin y => round64 (x - y)
  | PosInfinity, PosInfinity => NaN
  | NegInfinity, NegInfinity => NaN
  | PosInfinity, _ => PosInfinity
  | NegInfinity, _ => NegInfinity
  | Fin _, PosInfinity => NegInfinity
  | Fin _, NegInfinity => PosInfinity
  end.

(** The infinity of the sign of [c], where [c] compares a value with zero;
    [NaN] for a zero. *)
Definition signed_infinity (c : comparison) : number :=
  match c with
  | Lt => NegInfinity
  | Eq => NaN
  | Gt => PosInfinity
  end.

(** [a * b]. *)
Definition mul (a b : number) : number :=
  match a, b with
  | NaN, _ | _, NaN => NaN
  | Fin x, Fin y => round64 (x * y)
  | PosInfinity, Fin y | Fin y, PosInfinity => signed_infinity (y ?= 0)%Qc
  | NegInfinity, Fin y | Fin y, NegInfinity => signed_infinity (0 ?= y)%Qc
  | PosInfinity, PosInfinity | NegInfinity, NegInfinity => PosInfinity
  | PosInfinity, NegInfinity | NegInfinity, PosInfinity => NegInfinity
  end.

(** [a / b].  A finite value over zero is an infinity, and [0 / 0] is
    [NaN]: JavaScript raises no error on a division by zero. *)
Definition div (a b : number) : number :=
  match a, b with
  | NaN, _ | _, NaN => NaN
  | Fin x, Fin y =>
      match (y ?= 0)%Qc with
      | Eq => signed_infinity (x ?= 0)%Qc
      | _ => round64 (x / y)
      end
  | Fin _, _ => Fin 0
  | PosInfinity, Fin y =>
      match (y ?= 0)%Qc with Lt => NegInfinity | _ => PosInfinity end
  | NegInfinity, Fin y =>
      match (y ?= 0)%Qc with Lt => PosInfinity | _ => NegInfinity end
  | _, _ => NaN
  end.

End JS.

Import JS.

Arguments JS.round64 : simpl never.

Declare Scope js_scope.
Delimit Scope js_scope with js.
Bind Scope js_scope with number.
Infix "-" := JS.sub : js_scope.
Infix "*" := JS.mul : js_scope.
Infix "/" := JS.div : js_scope.
Notation "0" := (JS.of_Z 0) : js_scope.
Notation "50" := (JS.of_Z 50) : js_scope.
Notation "100" := (JS.of_Z 100) : js_scope.

(** ** The DOM as the component sees it *)

(** The part of a [DOMRect] that [handleMove] reads. *)
Record DOMRect : Type := mkRect {
  left : number;
  width : number
}.

(** [containerRef.current]: [None] is [null] (no element attached), and an
    attached element is represented by what its [getBoundingClientRect()]
    returns at the moment of the call. *)
Definition containerRef : Type := option DOMRect.

Record MouseEvent : Type := mkMouse { clientX : number }.

Record Touch : Type := mkTouch { touch_clientX : number }.

Record TouchEvent : Type := mkTouches { touches : list Touch }.

(** ** Component state: the two [useState] cells *)

Record state : Type := mkState {
  sliderPosition : number;
  isDragging : bool
}.

Definition setSliderPosition (p : number) (s : state) : state :=
  {| sliderPosition := p; isDragging := isDragging s |}.

Definition setIsDragging (b : bool) (s : state) : state :=
  {| sliderPosition := sliderPosition s; isDragging := b |}.

(** [useState(50)] and [useState(false)]. *)
Definition initial : state :=
  {| sliderPosition := 50%js; isDragging := false |}.

(** ** [handleMove] *)

(** The two arithmetic lines of [handleMove]:
    [x = Math.max(0, Math.min(clientX - rect.left, rect.width))] and
    [percentage = (x / rect.width) * 100]. *)
Definition percentage (rect : DOMRect) (cx : number) : number :=
  let x := Math_max 0%js (Math_min (cx - left rect)%js (width rect)) in
  ((x / width rect) * 100)%js.

Definition handleMove (ref : containerRef) (cx : number) (s : state) : state :=
  match ref with
  | None => s
  | Some rect => setSliderPosition (percentage rect cx) s
  end.

(** ** Event handlers *)

(** A handler either returns, leaving a state, or throws: the only throw in
    the component is the [TypeError] of reading [clientX] of
    [e.touches[0]] when the touch list is empty. *)
Inductive result : Type :=
| Ok (s : state)
| TypeError.

Definition onMouseDown (s : state) : state := setIsDragging true s.

Definition onTouchStart (s : state) : state := setIsDragging true s.

Definition handleClick (ref : containerRef) (e : MouseEvent) (s : state) : state :=
  handleMove ref (clientX e) s.

(** The closures created by the effect.  [dragging] is the value of
    [isDragging] of the render that created them. *)
Definition handleMouseUp (s : state) : result := Ok (setIsDragging false s).

Definition handleMouseMove (dragging : bool) (ref : containerRef)
    (e : MouseEvent) (s : state) : result :=
  if dragging then Ok (handleMove ref (clientX e) s) else Ok s.

Definition handleTouchMove (dragging : bool) (ref : containerRef)
    (e : TouchEvent) (s : state) : result :=
  if dragging then
    match touches e with
    | [] => TypeError
    | t :: _ => Ok (handleMove ref (touch_clientX t) s)
    end
  else Ok s.

(** ** Events and the listeners of the effect *)

(** Events dispatched on [document]. *)
Inductive documentEvent : Type :=
| mouseup (e : MouseEvent)
| mousemove (e : MouseEvent)
| touchend (e : TouchEvent)
| touchmove (e : TouchEvent)
| touchcancel (e : TouchEvent).

Definition listener : Type := containerRef -> state -> result.

(** The listener that the effect of a render with [isDragging = dragging]
    leaves on [document] for an event: the four [addEventListener] calls
    are made only when [dragging] holds, and the cleanup of the effect
    removes them before the effect of the next render runs.  A state
    update, the render it causes and the effect of that render are taken
    as one step: no event is delivered in between. *)
Definition document_listener (dragging : bool) (ev : documentEvent)
    : option listener :=
  if dragging then
    match ev with
    | mouseup _ => Some (fun _ => handleMouseUp)
    | mousemove e => Some (fun ref => handleMouseMove dragging ref e)
    | touchend _ => Some (fun _ => handleMouseUp)
    | touchmove e => Some (fun ref => handleTouchMove dragging ref e)
    | touchcancel _ => None
    end
  else None.

(** Everything the component reacts to: the two press handlers of the
    divider handle, [onClick] of the container, and events on [document]. *)
Inductive event : Type :=
| handle_mousedown
| handle_touchstart
| container_click (e : MouseEvent)
| document_event (ev : documentEvent).

Definition step (ref : containerRef) (ev : event) (s : state) : result :=
  match ev with
  | handle_mousedown => Ok (onMouseDown s)
  | handle_touchstart => Ok (onTouchStart s)
  | container_click e => Ok (handleClick ref e s)
  | document_event d =>
      match document_listener (isDragging s) d with
      | Some l => l ref s
      | None => Ok s
      end
  end.

(** The state after an event.  An exception thrown by a listener is
    reported by the browser and leaves both [useState] cells as they were. *)
Definition next (ref : containerRef) (ev : event) (s : state) : state :=
  match step ref ev s with
  | Ok s' => s'
  | TypeError => s
  end.

(** A run: each event comes with what [containerRef.current] is when it
    is handled (the geometry is read at every event, never cached). *)
Fixpoint run (evs : list (containerRef * event)) (s : state) : state :=
  match evs with
  | [] => s
  | (ref, ev) :: rest => run rest (next ref ev s)
  end.

(** ** Rendering *)

Inductive length : Type :=
| Zero
| Percent (n : number).

(** [inset(top right bottom left)]. *)
Record inset : Type := mkInset {
  inset_top : length;
  inset_right : length;
  inset_bottom : length;
  inset_left : length
}.

(** The two inline styles that depend on the state: [clipPath] of the
    overlay holding the "before" image and [left] of the divider handle. *)
Record rendered : Type := mkRendered {
  before_clipPath : inset;
  handle_left : length
}.

Definition render (s : state) : rendered :=
  {| before_clipPath :=
       mkInset Zero (Percent (100 - sliderPosition s)%js) Zero Zero;
     handle_left := Percent (sliderPosition s) |}.

(** ** Vocabulary of the specification *)

(** A position lies in the closed range [0, 100]. *)
Definition in_range (p : number) : bool := JS.leb 0%js p && JS.leb p 100%js.

(** Numbers are equal when they are the same special value or the same
    rational; this decides equalities between computed numbers. *)
Definition same_number (a b : number) : bool :=
  match a, b with
  | NaN, NaN | NegInfinity, NegInfinity | PosInfinity, PosInfinity => true
  | Fin x, Fin y => Qc_eq_bool x y
  | _, _ => false
  end.

(** [a < b] as JavaScript evaluates it: false when an operand is [NaN]. *)
Definition js_lt (a b : number) : bool :=
  match JS.compare a b with
  | Some Lt => true
  | _ => false
  end.

(** [clamp(x, lo, hi)]: [lo] below [lo], [hi] above [hi], [x] itself
    otherwise. *)
Definition clamp (x lo hi : number) : number :=
  if js_lt x lo then lo else if js_lt hi x then hi else x.

(** Events that press, release and move. *)
Definition is_press (ev : event) : bool :=
  match ev with
  | handle_mousedown | handle_touchstart => true
  | _ => false
  end.

Definition is_click (ev : event) : bool :=
  match ev with
  | container_click _ => true
  | _ => false
  end.

Definition is_move (ev : event) : bool :=
  match ev with
  | document_event (mousemove _) | document_event (touchmove _) => true
  | _ => false
  end.

Definition is_release (ev : event) : bool :=
  match ev with
  | document_event (mouseup _) | document_event (touchend _)
  | document_event (touchcancel _) => true
  | _ => false
  end.

(** A pointer event that reaches [handleMove] with coordinate [cx]: a
    click on the container, or a move on [document] while dragging. *)
Inductive handled : event -> state -> number -> Prop :=
| handled_click (e : MouseEvent) (s : state) :
    handled (container_click e) s (clientX e)
| handled_mousemove (e : MouseEvent) (s : state) :
    isDragging s = true ->
    handled (document_event (mousemove e)) s (clientX e)
| handled_touchmove (t : Touch) (ts : list Touch) (s : state) :
    isDragging s = true ->
    handled (document_event (touchmove (mkTouches (t :: ts)))) s
            (touch_clientX t).

(** Geometry and coordinates as a laid-out page delivers them: a finite
    left edge, a finite positive width, a finite pointer coordinate. *)
Definition laid_out (rect : DOMRect) : bool :=
  JS.is_finite (left rect) &&
  match width rect with
  | Fin w => match (0 ?= w)%Qc with Lt => true | _ => false end
  | _ => false
  end.

Definition measurable (ref : containerRef) : bool :=
  match ref with
  | None => true
  | Some rect => laid_out rect
  end.

Definition pointer_finite (ev : event) : bool :=
  match ev with
  | container_click e | document_event (mousemove e) =>
      JS.is_finite (clientX e)
  | document_event (touchmove e) =>
      match touches e with
      | t :: _ => JS.is_finite (touch_clientX t)
      | [] => true
      end
  | _ => true
  end.

(** Concrete states and events used in the examples below. *)
Definition dragging_at_50 : state :=
  {| sliderPosition := 50%js; isDragging := true |}.

Definition zero_width : DOMRect := {| left := 0%js; width := 0%js |}.

Definition width_400 : DOMRect := {| left := 0%js; width := JS.of_Z 400 |}.

Definition mouse_at (z : Z) : MouseEvent := {| clientX := JS.of_Z z |}.

Definition no_touches : TouchEvent := {| touches := [] |}.

(** The releases the effect listens for. *)
Definition ends_drag (ev : event) : bool :=
  match ev with
  | document_event (mouseup _) | document_event (touchend _) => true
  | _ => false
  end.

(** Mouse moves on the document, each with the bounding box the container
    reports when it arrives. *)
Definition mouse_moves (ms : list (DOMRect * number))
    : list (containerRef * event) :=
  map (fun m => (Some (fst m), document_event (mousemove (mkMouse (snd m)))))
      ms.

(** The percentage of the last of a list of moves, [p0] if there is none. *)
Definition last_percentage (ms : list (DOMRect * number)) (p0 : number)
    : number :=
  List.last (map (fun m => percentage (fst m) (snd m)) ms) p0.

Definition nan_while_dragging : state :=
  {| sliderPosition := NaN; isDragging := true |}.

(** * The components around the slider *)

(** [a > b] as JavaScript evaluates it: false when an operand is [NaN]. *)
Definition js_gt (a b : number) : bool :=
  match JS.compare a b with
  | Some Gt => true
  | _ => false
  end.

(** A string is truthy unless it is empty. *)
Definition truthy (u : string) : bool :=
  match u with
  | EmptyString => false
  | String _ _ => true
  end.

(** [String.prototype.toLowerCase], on the ASCII letters: the strings it is
    applied to here are ASCII literals. *)
Definition lower_ascii (c : ascii) : ascii :=
  let n := nat_of_ascii c in
  if (65 <=? n)%nat && (n <=? 90)%nat then ascii_of_nat (n + 32) else c.

Fixpoint toLowerCase (u : string) : string :=
  match u with
  | EmptyString => EmptyString
  | String c rest => String (lower_ascii c) (toLowerCase rest)
  end.

(** [u.includes(sub)]. *)
Fixpoint includes (u sub : string) : bool :=
  String.prefix sub u ||
  match u with
  | EmptyString => false
  | String _ rest => includes rest sub
  end.

(** ** [ConfigurationPanel.tsx] *)

Module ConfigurationPanel.

(** The union of string literals ['photo-enhancer' | 'smart-upscale' |
    'document-ocr' | 'restoration' | 'product-clarity']. *)
Inductive EnhancementMode : Type :=
| photo_enhancer
| smart_upscale
| document_ocr
| restoration
| product_clarity.

Definition mode_eqb (a b : EnhancementMode) : bool :=
  match a, b with
  | photo_enhancer, photo_enhancer
  | smart_upscale, smart_upscale
  | document_ocr, document_ocr
  | restoration, restoration
  | product_clarity, product_clarity => true
  | _, _ => false
  end.

(** An entry of [MODES], without its icon. *)
Record mode_entry : Type := mkEntry {
  id : EnhancementMode;
  label : string;
  desc : string
}.

Definition MODES : list mode_entry :=
  [ mkEntry photo_enhancer "Photo Enhancer" "Better contrast, color & detail";
    mkEntry smart_upscale "Smart Upscale" "High-res print quality";
    mkEntry document_ocr "Document / OCR" "Clean text & remove shadows";
    mkEntry restoration "Restoration" "Fix noise & faded tones";
    mkEntry product_clarity "Product Clarity" "Sharp edges for e-commerce" ].

(** The button of an entry is drawn selected when [mode === m.id]. *)
Definition selected (mode : EnhancementMode) (m : mode_entry) : bool :=
  mode_eqb mode (id m).

End ConfigurationPanel.

(** ** [ResultView.tsx] *)

Module ResultView.

Import ConfigurationPanel.

Definition MODE_LABELS (mode : EnhancementMode) : string :=
  match mode with
  | photo_enhancer => "Photo Enhancer"
  | smart_upscale => "Smart Upscale"
  | document_ocr => "Document / OCR"
  | restoration => "Restoration"
  | product_clarity => "Product Clarity"
  end.

(** The local [s] of [getSummary]. *)
Definition intensity (strength : number) : string :=
  if js_gt strength (JS.of_Z 70) then "Aggressive"
  else if js_gt strength (JS.of_Z 30) then "Balanced"
  else "Subtle".

(** [getSummary].  The [default] case of its [switch] is left out: no
    value of [EnhancementMode] reaches it. *)
Definition getSummary (mode : EnhancementMode) (strength : number) : string :=
  let s := toLowerCase (intensity strength) in
  match mode with
  | photo_enhancer =>
      "Applied " ++ s ++ " color correction and dynamic range optimization. Boosted local contrast and vibrancy."
  | smart_upscale =>
      "Upscaled resolution by 2x using " ++ s ++ " generative fill. Sharpened fine details and removed compression artifacts."
  | document_ocr =>
      "Binarized text for maximum readability with " ++ s ++ " thresholding. Removed background shadows and noise."
  | restoration =>
      "Restored faded colors and reduced grain using " ++ s ++ " neural restoration. Inpainted scratches and defects."
  | product_clarity =>
      "Isolated subject and enhanced edge definition with " ++ s ++ " sharpening. Neutralized background color cast."
  end%string.

(** What [handleDownload] acts on: the children of [document.body] (nodes
    by identity), the downloads the browser has started (address and file
    name), the delays of the timeouts not yet fired, and the [downloaded]
    cell.  Every timeout of the component runs [setDownloaded(false)]. *)
Record page : Type := mkPage {
  body : list nat;
  downloads : list (string * string);
  timeouts : list nat;
  downloaded : bool
}.

Definition appendChild (node : nat) (p : page) : page :=
  mkPage (body p ++ [node]) (downloads p) (timeouts p) (downloaded p).

(** [link.click()] on an anchor with [href] and [download] set. *)
Definition click (href name : string) (p : page) : page :=
  mkPage (body p) (downloads p ++ [(href, name)]) (timeouts p) (downloaded p).

(** [link.remove()]. *)
Definition remove (node : nat) (p : page) : page :=
  mkPage (List.remove Nat.eq_dec node (body p)) (downloads p) (timeouts p)
         (downloaded p).

Definition setDownloaded (b : bool) (p : page) : page :=
  mkPage (body p) (downloads p) (timeouts p) b.

Definition setTimeout (ms : nat) (p : page) : page :=
  mkPage (body p) (downloads p) (timeouts p ++ [ms]) (downloaded p).

(** [handleDownload]; [link] is the node that [document.createElement]
    returns. *)
Definition handleDownload (enhancedUrl : string) (link : nat) (p : page)
    : page :=
  if truthy enhancedUrl then
    setTimeout 2000
      (setDownloaded true
         (remove link
            (click enhancedUrl "PixelLift-enhanced.png"
               (appendChild link p))))
  else p.

End ResultView.

(** ** [App.tsx] *)

Module App.

Import ConfigurationPanel.

Definition mapModeToBackend (mode : EnhancementMode) : string :=
  match mode with
  | photo_enhancer => "photo"
  | smart_upscale => "print"
  | document_ocr => "doc"
  | restoration => "old"
  | product_clarity => "product"
  end.

Inductive Step : Type :=
| upload
| configure
| result.

Record File : Type := mkFile {
  name : string;
  size : number
}.

(** The [useState] cells of [App]. *)
Record state : Type := mkApp {
  step : Step;
  file : option File;
  previewUrl : string;
  isDarkMode : bool;
  mode : EnhancementMode;
  strength : number;
  isProcessing : bool;
  resultUrl : string;
  dimensions : number * number;
  resultSummary : string
}.

Definition setStep (v : Step) (a : state) : state :=
  mkApp v (file a) (previewUrl a) (isDarkMode a) (mode a) (strength a)
        (isProcessing a) (resultUrl a) (dimensions a) (resultSummary a).

Definition setFile (v : option File) (a : state) : state :=
  mkApp (step a) v (previewUrl a) (isDarkMode a) (mode a) (strength a)
        (isProcessing a) (resultUrl a) (dimensions a) (resultSummary a).

Definition setPreviewUrl (v : string) (a : state) : state :=
  mkApp (step a) (file a) v (isDarkMode a) (mode a) (strength a)
        (isProcessing a) (resultUrl a) (dimensions a) (resultSummary a).

Definition setIsDarkMode (v : bool) (a : state) : state :=
  mkApp (step a) (file a) (previewUrl a) v (mode a) (strength a)
        (isProcessing a) (resultUrl a) (dimensions a) (resultSummary a).

Definition setMode (v : EnhancementMode) (a : state) : state :=
  mkApp (step a) (file a) (previewUrl a) (isDarkMode a) v (strength a)
        (isProcessing a) (resultUrl a) (dimensions a) (resultSummary a).

Definition setStrength (v : number) (a : state) : state :=
  mkApp (step a) (file a) (previewUrl a) (isDarkMode a) (mode a) v
        (isProcessing a) (resultUrl a) (dimensions a) (resultSummary a).

Definition setIsProcessing (v : bool) (a : state) : state :=
  mkApp (step a) (file a) (previewUrl a) (isDarkMode a) (mode a) (strength a)
        v (resultUrl a) (dimensions a) (resultSummary a).

Definition setResultUrl (v : string) (a : state) : state :=
  mkApp (step a) (file a) (previewUrl a) (isDarkMode a) (mode a) (strength a)
        (isProcessing a) v (dimensions a) (resultSummary a).

Definition setDimensions (v : number * number) (a : state) : state :=
  mkApp (step a) (file a) (previewUrl a) (isDarkMode a) (mode a) (strength a)
        (isProcessing a) (resultUrl a) v (resultSummary a).

Definition setResultSummary (v : string) (a : state) : state :=
  mkApp (step a) (file a) (previewUrl a) (isDarkMode a) (mode a) (strength a)
        (isProcessing a) (resultUrl a) (dimensions a) v.

Definition initial_state : state :=
  mkApp upload None EmptyString true photo_enhancer 50%js false EmptyString
        (0%js, 0%js) EmptyString.

(** The form data of a request: the file, the backend name of the mode,
    and the strength (which the code sends as [String(strength)]). *)
Record request : Type := mkRequest {
  req_file : File;
  req_mode : string;
  req_strength : number
}.

(** How the awaited part of [handleStartEnhancement] ends: [fetch]
    rejects, the response is not [ok], its body is not JSON, or the body
    is parsed ([summary] may be absent). *)
Inductive response : Type :=
| Rejected
| NotOk
| BadBody
| Json (image_data : string) (summary : option string).

(** The application and what it has done to its surroundings: the object
    URLs created and not revoked, the requests sent and not answered, the
    images whose [onload] has not fired, and the numbers of calls of
    [alert] and [console.warn]. *)
Record world : Type := mkWorld {
  app : state;
  live_urls : list string;
  in_flight : list request;
  loading : nat;
  alerts : nat;
  warnings : nat
}.

Definition initial_world : world :=
  mkWorld initial_state [] [] 0 0 0.

(** The effect on [previewUrl]: when a render changes it, the cleanup of
    the previous effect revokes the previous value if it is not empty. *)
Definition revoke_previous (old new : string) (live : list string)
    : list string :=
  if String.eqb old new then live
  else if truthy old then List.remove string_dec old live
  else live.

(** A handler has changed the cells from [app w] to [a]: the render
    follows and its effects run. *)
Definition commit (a : state) (w : world) : world :=
  mkWorld a (revoke_previous (previewUrl (app w)) (previewUrl a) (live_urls w))
          (in_flight w) (loading w) (alerts w) (warnings w).

(** [handleFileSelect]; [url] is what [URL.createObjectURL(selectedFile)]
    returns. *)
Definition handleFileSelect (selectedFile : File) (url : string) (w : world)
    : world :=
  let created :=
    mkWorld (app w) (live_urls w ++ [url]) (in_flight w) (S (loading w))
            (alerts w) (warnings w) in
  commit (setStep configure (setPreviewUrl url (setFile (Some selectedFile)
                                                        (app w))))
         created.

(** [img.onload] of an image created by [handleFileSelect]. *)
Definition image_loaded (width height : number) (w : world) : world :=
  commit (setDimensions (width, height) (app w))
         (mkWorld (app w) (live_urls w) (in_flight w) (Nat.pred (loading w))
                  (alerts w) (warnings w)).

Definition warn (w : world) : world :=
  mkWorld (app w) (live_urls w) (in_flight w) (loading w) (alerts w)
          (S (warnings w)).

(** [handleStartEnhancement] up to its [await]: the guard, the flag and
    the request. *)
Definition handleStartEnhancement (w : world) : world :=
  match file (app w) with
  | None => warn w
  | Some f =>
      if truthy (previewUrl (app w)) then
        commit (setIsProcessing true (app w))
               (mkWorld (app w) (live_urls w)
                        (in_flight w ++
                         [mkRequest f (mapModeToBackend (mode (app w)))
                                    (strength (app w))])
                        (loading w) (alerts w) (warnings w))
      else warn w
  end.

(** [data.summary || ""]. *)
Definition summary_or_empty (summary : option string) : string :=
  match summary with
  | Some text => text
  | None => EmptyString
  end.

(** [handleStartEnhancement] after its [await]: [try], [catch] and
    [finally].  The request answered leaves [in_flight]. *)
Definition settle (r : response) (w : world) : world :=
  let answered :=
    mkWorld (app w) (live_urls w) (List.tl (in_flight w)) (loading w)
            (alerts w) (warnings w) in
  match r with
  | Json image_data summary =>
      commit (setIsProcessing false
                (setStep result
                   (setResultSummary (summary_or_empty summary)
                      (setResultUrl image_data (app w)))))
             answered
  | _ =>
      commit (setIsProcessing false (app w))
             (mkWorld (app w) (live_urls w) (List.tl (in_flight w))
                      (loading w) (S (alerts w)) (warnings w))
  end.

Definition handleAdjust (w : world) : world :=
  commit (setStep configure (app w)) w.

Definition handleReset (w : world) : world :=
  commit (setStep upload
            (setStrength 50%js
               (setMode photo_enhancer
                  (setResultUrl EmptyString
                     (setPreviewUrl EmptyString
                        (setFile None (app w)))))))
         w.

Definition toggleTheme (w : world) : world :=
  commit (setIsDarkMode (negb (isDarkMode (app w))) (app w)) w.

(** What can happen to the application. *)
Inductive event : Type :=
| FileSelected (selectedFile : File) (url : string)
| ImageLoaded (width height : number)
| ModeChange (m : EnhancementMode)
| StrengthChange (v : number)
| Start
| Settled (r : response)
| Adjust
| Reset
| ToggleTheme.

Definition handle (ev : event) (w : world) : world :=
  match ev with
  | FileSelected f url => handleFileSelect f url w
  | ImageLoaded width height => image_loaded width height w
  | ModeChange m => commit (setMode m (app w)) w
  | StrengthChange v => commit (setStrength v (app w)) w
  | Start => handleStartEnhancement w
  | Settled r => settle r w
  | Adjust => handleAdjust w
  | Reset => handleReset w
  | ToggleTheme => toggleTheme w
  end.

Definition is_upload (s : Step) : bool :=
  match s with upload => true | _ => false end.

Definition is_configure (s : Step) : bool :=
  match s with configure => true | _ => false end.

Definition is_result (s : Step) : bool :=
  match s with result => true | _ => false end.

Definition is_some {A : Type} (o : option A) : bool :=
  match o with Some _ => true | None => false end.

Definition mem (u : string) (l : list string) : bool :=
  existsb (String.eqb u) l.

(** When an event can happen.  The render decides which controls exist:
    the upload zone in the [upload] step; the panel, with its mode
    buttons, strength slider and Start button, in the [configure] step
    when a file is set, the Start button being disabled while
    [isProcessing]; the result view in the [result] step; the logo (reset)
    and the theme toggle always.  The browser decides the rest: an object
    URL is not empty and not one that is live, an image loads and a
    request settles only if one is outstanding. *)
Definition possible (ev : event) (w : world) : bool :=
  match ev with
  | FileSelected _ url =>
      is_upload (step (app w)) && truthy url && negb (mem url (live_urls w))
  | ImageLoaded _ _ => negb (Nat.eqb (loading w) 0)
  | ModeChange _ | StrengthChange _ =>
      is_configure (step (app w)) && is_some (file (app w))
  | Start =>
      is_configure (step (app w)) && is_some (file (app w)) &&
      negb (isProcessing (app w))
  | Settled _ => negb (Nat.eqb (List.length (in_flight w)) 0)
  | Adjust => is_result (step (app w))
  | Reset | ToggleTheme => true
  end.

(** A session: [None] as soon as an event is not possible. *)
Fixpoint session (evs : list event) (w : world) : option world :=
  match evs with
  | [] => Some w
  | ev :: rest =>
      if possible ev w then session rest (handle ev w) else None
  end.

End App.

(** ** Conditions on the application and its surroundings *)

(** At most one request is unanswered, and [isProcessing] tells whether
    one is. *)
Definition one_request_at_most (w : App.world) : Prop :=
  match App.in_flight w with
  | [] => App.isProcessing (App.app w) = false
  | [_] => App.isProcessing (App.app w) = true
  | _ :: _ :: _ => False
  end.

(** The object URLs alive are the preview in use, and nothing else. *)
Definition urls_accounted (w : App.world) : Prop :=
  App.live_urls w =
  if truthy (App.previewUrl (App.app w))
  then [App.previewUrl (App.app w)]
  else [].

(** A file is set exactly when a preview URL is. *)
Definition file_with_preview (w : App.world) : Prop :=
  App.is_some (App.file (App.app w)) = truthy (App.previewUrl (App.app w)).

(** What every session keeps. *)
Definition session_invariant (w : App.world) : Prop :=
  one_request_at_most w /\ urls_accounted w /\ file_with_preview w /\
  App.warnings w = 0%nat.

Definition some_file : App.File :=
  App.mkFile "cat.png" (JS.of_Z 2048).

Definition other_file : App.File :=
  App.mkFile "dog.png" (JS.of_Z 4096).

(** A session in which a request is answered after a reset and a second
    file, followed by a return to the panel. *)
Definition sample_session : list App.event :=
  [ App.FileSelected some_file "blob:1";
    App.Start;
    App.Reset;
    App.FileSelected other_file "blob:2";
    App.Settled (App.Json "data:image/png;base64,AAAA" None);
    App.Adjust;
    App.Start ].

(** The outcomes of a request that end in the [catch] block. *)
Definition is_failure (r : App.response) : bool :=
  match r with
  | App.Json _ _ => false
  | _ => true
  end.

(** A request for [some_file] is out and the panel is shown. *)
Definition waiting_world : App.world :=
  App.handleStartEnhancement
    (App.handleFileSelect some_file "blob:1" App.initial_world).

(** * Properties *)

(** ** Rational arithmetic *)

Section Rationals.

Local Open Scope Qc_scope.

Lemma Qccompare_spec (x y : Qc) :
  CompareSpec (x = y) (x < y) (y < x) (x ?= y).
Proof.
  destruct (x ?= y) eqn:E; constructor.
  - now apply Qceq_alt.
  - now apply Qclt_alt.
  - now apply Qcgt_alt in E.
Qed.

Lemma Qclt_0_neq (w : Qc) : 0 < w -> w <> 0.
Proof. intros Hw ->. revert Hw. apply Qcle_not_lt, Qcle_refl. Qed.

Lemma Qcdiv_mult_cancel (x w : Qc) : w <> 0 -> x / w * w = x.
Proof.
  intros Hw. unfold Qcdiv.
  now rewrite <- Qcmult_assoc, Qcmult_inv_l, Qcmult_1_r.
Qed.

Lemma hundred_nonneg : 0 <= JS.Qc_of_Z 100.
Proof. now vm_compute. Qed.

(** A part of the width is a fraction between 0 and 1. *)
Lemma fraction_bounds (x w : Qc) :
  0 < w -> 0 <= x -> x <= w -> 0 <= x / w /\ x / w <= 1.
Proof.
  intros Hw H0 H1. pose proof (Qclt_0_neq w Hw) as Hne. split.
  - apply Qcmult_lt_0_le_reg_r with (z := w); [assumption|].
    now rewrite Qcdiv_mult_cancel, Qcmult_0_l.
  - apply Qcmult_lt_0_le_reg_r with (z := w); [assumption|].
    now rewrite Qcdiv_mult_cancel, Qcmult_1_l.
Qed.

Lemma percent_bounds (r : Qc) :
  0 <= r -> r <= 1 ->
  0 <= r * JS.Qc_of_Z 100 /\ r * JS.Qc_of_Z 100 <= JS.Qc_of_Z 100.
Proof.
  intros H0 H1. split.
  - rewrite <- (Qcmult_0_l (JS.Qc_of_Z 100)).
    apply Qcmult_le_compat_r; [assumption | apply hundred_nonneg].
  - rewrite <- (Qcmult_1_l (JS.Qc_of_Z 100)) at 2.
    apply Qcmult_le_compat_r; [assumption | apply hundred_nonneg].
Qed.

Lemma Qcinv_nonneg (w : Qc) : 0 < w -> 0 <= / w.
Proof.
  intros Hw. apply Qcmult_lt_0_le_reg_r with (z := w); [assumption |].
  rewrite Qcmult_0_l, Qcmult_inv_l by now apply Qclt_0_neq.
  now vm_compute.
Qed.

Lemma Q2Qc_le (x y : Q) : (x <= y)%Q -> Q2Qc x <= Q2Qc y.
Proof. intros H. unfold Qcle. cbn [this Q2Qc]. now rewrite !Qred_correct. Qed.

End Rationals.

(** Order facts on [Qc] are decided on the underlying [Q]. *)
Ltac qc_order := unfold Qclt, Qcle in *; cbn in *; lra.

Ltac qc_cases :=
  repeat match goal with
         | |- context [(?a ?= ?b)%Qc] => destruct (Qccompare_spec a b)
         end.

(** Case analysis on every comparison of rationals that decides a goal
    about numbers. *)
Ltac number_cases :=
  repeat first [ progress cbn [JS.compare]
               | progress (qc_cases; subst) ];
  solve [ reflexivity | discriminate | exfalso; qc_order ].

(** ** The order of numbers *)

Lemma leb_Fin_iff (x y : Qc) : JS.leb (Fin x) (Fin y) = true <-> (x <= y)%Qc.
Proof.
  unfold JS.leb. cbn [JS.compare]. rewrite Qcle_alt.
  destruct (x ?= y)%Qc; split; intros H; try reflexivity; try discriminate;
    try (intros E; discriminate E). now contradiction H.
Qed.

Lemma leb_Fin (x y : Qc) : (x <= y)%Qc -> JS.leb (Fin x) (Fin y) = true.
Proof. apply leb_Fin_iff. Qed.

Lemma leb_trans (a b c : number) :
  JS.leb a b = true -> JS.leb b c = true -> JS.leb a c = true.
Proof.
  destruct a as [| | x |], b as [| | y |], c as [| | z |];
    try discriminate; try reflexivity.
  rewrite !leb_Fin_iff. apply Qcle_trans.
Qed.

Lemma leb_neg (a b : number) :
  JS.leb a b = true -> JS.leb (JS.neg b) (JS.neg a) = true.
Proof.
  destruct a as [| | x |], b as [| | y |]; try discriminate; try reflexivity.
  cbn [JS.neg]. rewrite !leb_Fin_iff. apply Qcopp_le_compat.
Qed.

(** ** Rounding to binary64 *)

Section Rounding.

Local Open Scope Q_scope.

Lemma rne_bounds (y : Q) : (Qfloor y <= JS.rne y <= Qfloor y + 1)%Z.
Proof.
  unfold JS.rne. destruct (y - inject_Z (Qfloor y) ?= 1 # 2);
    try destruct (Z.even (Qfloor y)); lia.
Qed.

Lemma rne_mono (y1 y2 : Q) : y1 <= y2 -> (JS.rne y1 <= JS.rne y2)%Z.
Proof.
  intros H. pose proof (Qfloor_resp_le _ _ H) as Hf.
  destruct (Z.eq_dec (Qfloor y1) (Qfloor y2)) as [E | E].
  - unfold JS.rne. rewrite E.
    destruct (Qcompare_spec (y1 - inject_Z (Qfloor y2)) (1 # 2))
      as [C1 | C1 | C1];
      destruct (Qcompare_spec (y2 - inject_Z (Qfloor y2)) (1 # 2))
        as [C2 | C2 | C2];
      try destruct (Z.even (Qfloor y2)); try lia; exfalso; lra.
  - pose proof (rne_bounds y1). pose proof (rne_bounds y2). lia.
Qed.

Lemma rne_Z (k : Z) : JS.rne (inject_Z k) = k.
Proof.
  unfold JS.rne. rewrite Qfloor_Z.
  destruct (Qcompare_spec (inject_Z k - inject_Z k) (1 # 2));
    solve [ reflexivity | exfalso; lra ].
Qed.

(** Rounding to an integer moves a value by at most one half. *)
Lemma rne_error (y : Q) :
  y - (1 # 2) <= inject_Z (JS.rne y) /\ inject_Z (JS.rne y) <= y + (1 # 2).
Proof.
  pose proof (Qfloor_le y) as Hl. pose proof (Qlt_floor y) as Hu.
  rewrite inject_Z_plus in Hu. change (inject_Z 1) with 1 in Hu.
  unfold JS.rne.
  destruct (Qcompare_spec (y - inject_Z (Qfloor y)) (1 # 2)) as [C | C | C];
    try destruct (Z.even (Qfloor y)); rewrite ?inject_Z_plus;
    change (inject_Z 1) with 1; split; lra.
Qed.

Lemma inject_pow_pos (s : Z) : (0 <= s)%Z -> 0 < inject_Z (2 ^ s).
Proof.
  intros Hs. change 0 with (inject_Z 0). rewrite <- Zlt_Qlt.
  apply Z.pow_pos_nonneg; lia.
Qed.

Lemma binade_shift_nonneg (Y : Q) : (0 <= JS.binade_shift Y)%Z.
Proof. unfold JS.binade_shift. lia. Qed.

Lemma binade_shift_mono (Y1 Y2 : Q) :
  Y1 <= Y2 -> (JS.binade_shift Y1 <= JS.binade_shift Y2)%Z.
Proof.
  intros H. unfold JS.binade_shift.
  pose proof (Z.log2_le_mono _ _ (Qfloor_resp_le _ _ H)). lia.
Qed.

(** A rounded value is at most the top of its binade. *)
Lemma scaled_upper (Y : Q) :
  0 <= Y -> (JS.scaled Y <= 2 ^ (53 + JS.binade_shift Y))%Z.
Proof.
  intros H0. unfold JS.scaled.
  pose proof (binade_shift_nonneg Y) as Hs.
  set (s := JS.binade_shift Y) in *.
  assert (HN : (0 <= Qfloor Y)%Z).
  { rewrite <- (Qfloor_Z 0). now apply Qfloor_resp_le. }
  assert (Hlt : (Qfloor Y < 2 ^ (53 + s))%Z).
  { destruct (Z.eq_dec (Qfloor Y) 0) as [E | E].
    - rewrite E. apply Z.pow_pos_nonneg; lia.
    - destruct (Z.log2_spec (Qfloor Y)) as [_ Hu]; [lia |].
      eapply Z.lt_le_trans; [exact Hu |].
      apply Z.pow_le_mono_r; [lia |]. unfold s, JS.binade_shift. lia. }
  assert (Hy : Y / inject_Z (2 ^ s) <= inject_Z (2 ^ 53)).
  { apply Qle_shift_div_r; [now apply inject_pow_pos |].
    rewrite <- inject_Z_mult, <- Z.pow_add_r by lia.
    apply Qlt_le_weak. eapply Qlt_le_trans; [apply Qlt_floor |].
    rewrite <- Zle_Qle. lia. }
  apply rne_mono in Hy. rewrite rne_Z in Hy.
  rewrite Z.pow_add_r by lia.
  apply Z.mul_le_mono_nonneg_r; [| exact Hy].
  apply Z.pow_nonneg; lia.
Qed.

(** Above the lowest binade it is at least the bottom of its binade. *)
Lemma scaled_lower (Y : Q) :
  (0 < JS.binade_shift Y)%Z -> (2 ^ (52 + JS.binade_shift Y) <= JS.scaled Y)%Z.
Proof.
  intros Hs. unfold JS.scaled.
  assert (Es : JS.binade_shift Y = (Z.log2 (Qfloor Y) - 52)%Z)
    by (unfold JS.binade_shift in *; lia).
  set (s := JS.binade_shift Y) in *.
  assert (HN : (0 < Qfloor Y)%Z).
  { destruct (Z.lt_trichotomy (Qfloor Y) 0) as [H | [H | H]]; [| | exact H].
    - rewrite Z.log2_nonpos in Es by lia. lia.
    - rewrite H in Es. cbn in Es. lia. }
  destruct (Z.log2_spec (Qfloor Y) HN) as [Hl _].
  assert (Hy : inject_Z (2 ^ 52) <= Y / inject_Z (2 ^ s)).
  { apply Qle_shift_div_l; [apply inject_pow_pos; lia |].
    rewrite <- inject_Z_mult, <- Z.pow_add_r by lia.
    eapply Qle_trans; [| apply Qfloor_le].
    rewrite <- Zle_Qle. replace (52 + s)%Z with (Z.log2 (Qfloor Y)) by lia.
    exact Hl. }
  apply rne_mono in Hy. rewrite rne_Z in Hy.
  rewrite Z.pow_add_r by lia.
  apply Z.mul_le_mono_nonneg_r; [| exact Hy].
  apply Z.pow_nonneg; lia.
Qed.

Lemma scaled_mono (Y1 Y2 : Q) :
  0 <= Y1 -> Y1 <= Y2 -> (JS.scaled Y1 <= JS.scaled Y2)%Z.
Proof.
  intros H0 H.
  pose proof (binade_shift_mono _ _ H) as Hs.
  pose proof (binade_shift_nonneg Y1) as Hs1.
  destruct (Z.eq_dec (JS.binade_shift Y1) (JS.binade_shift Y2)) as [E | E].
  - unfold JS.scaled. rewrite E.
    apply Z.mul_le_mono_nonneg_r; [apply Z.pow_nonneg; lia |].
    apply rne_mono. apply Qmult_le_compat_r; [exact H |].
    apply Qinv_le_0_compat, Qlt_le_weak, inject_pow_pos. lia.
  - eapply Z.le_trans; [apply scaled_upper; exact H0 |].
    eapply Z.le_trans; [| apply scaled_lower; lia].
    apply Z.pow_le_mono_r; lia.
Qed.

Lemma scaled_nonneg (Y : Q) : 0 <= Y -> (0 <= JS.scaled Y)%Z.
Proof.
  intros H0. unfold JS.scaled.
  apply Z.mul_nonneg_nonneg; [| apply Z.pow_nonneg; lia].
  eapply Z.le_trans; [| apply rne_bounds].
  rewrite <- (Qfloor_Z 0). apply Qfloor_resp_le.
  apply Qle_shift_div_l; [apply inject_pow_pos, binade_shift_nonneg |].
  now rewrite Qmult_0_l.
Qed.

(** Above the lowest binade a value is at least [2 ^ 52] units of its
    binade. *)
Lemma binade_lower (Y : Q) :
  (0 < JS.binade_shift Y)%Z -> inject_Z (2 ^ (52 + JS.binade_shift Y)) <= Y.
Proof.
  intros Hs.
  assert (Es : JS.binade_shift Y = (Z.log2 (Qfloor Y) - 52)%Z)
    by (unfold JS.binade_shift in *; lia).
  assert (HN : (0 < Qfloor Y)%Z).
  { destruct (Z.lt_trichotomy (Qfloor Y) 0) as [H | [H | H]]; [| | exact H].
    - rewrite Z.log2_nonpos in Es by lia. lia.
    - rewrite H in Es. cbn in Es. lia. }
  destruct (Z.log2_spec (Qfloor Y) HN) as [Hl _].
  eapply Qle_trans; [| apply Qfloor_le].
  rewrite <- Zle_Qle.
  replace (52 + JS.binade_shift Y)%Z with (Z.log2 (Qfloor Y)) by lia.
  exact Hl.
Qed.

(** Rounding moves a value by at most half a unit of its binade: by at
    most one part in [2 ^ 53] of the value, or half a unit of the lowest
    binade. *)
Lemma scaled_error (Y : Q) :
  0 <= Y ->
  Y - ((1 # 2) + Y / inject_Z (2 ^ 53)) <= inject_Z (JS.scaled Y) /\
  inject_Z (JS.scaled Y) <= Y + ((1 # 2) + Y / inject_Z (2 ^ 53)).
Proof.
  intros H0. unfold JS.scaled.
  pose proof (binade_shift_nonneg Y) as Hs.
  set (s := JS.binade_shift Y) in *.
  pose proof (inject_pow_pos s Hs) as HP.
  pose proof (inject_pow_pos 53 ltac:(lia)) as H53.
  destruct (rne_error (Y / inject_Z (2 ^ s))) as [El Eu].
  rewrite inject_Z_mult.
  set (P := inject_Z (2 ^ s)) in *.
  set (m := inject_Z (JS.rne (Y / P))) in *.
  assert (EY : Y / P * P == Y) by (field; lra).
  assert (Hhalf : P * (1 # 2) <= (1 # 2) + Y / inject_Z (2 ^ 53)).
  { destruct (Z.eq_dec s 0) as [E | E].
    - unfold P. rewrite E. change (inject_Z (2 ^ 0)) with 1.
      assert (0 <= Y / inject_Z (2 ^ 53)).
      { apply Qle_shift_div_l; [exact H53 | lra]. }
      lra.
    - pose proof (binade_lower Y ltac:(fold s; lia)) as Hl. fold s in Hl.
      rewrite Z.pow_add_r, inject_Z_mult in Hl by lia. fold P in Hl.
      assert (E53 : inject_Z (2 ^ 53) == inject_Z (2 ^ 52) * 2).
      { now vm_compute. }
      assert (P * (1 # 2) <= Y / inject_Z (2 ^ 53)).
      { apply Qle_shift_div_l; [exact H53 |]. rewrite E53. lra. }
      assert (0 <= (1 # 2)) by lra. lra. }
  assert (Ml : (Y / P - (1 # 2)) * P <= m * P)
    by (apply Qmult_le_compat_r; lra).
  assert (Mu : m * P <= (Y / P + (1 # 2)) * P)
    by (apply Qmult_le_compat_r; lra).
  split; lra.
Qed.

Lemma round_pos_mono (q1 q2 : Q) :
  0 <= q1 -> q1 <= q2 -> JS.leb (JS.round_pos q1) (JS.round_pos q2) = true.
Proof.
  intros H0 H. unfold JS.round_pos.
  assert (Hc : 0 < inject_Z (2 ^ 1074)) by (apply inject_pow_pos; lia).
  assert (HR : (JS.scaled (q1 * inject_Z (2 ^ 1074)) <=
                JS.scaled (q2 * inject_Z (2 ^ 1074)))%Z).
  { apply scaled_mono.
    - apply Qmult_le_0_compat; [exact H0 | now apply Qlt_le_weak].
    - apply Qmult_le_compat_r; [exact H | now apply Qlt_le_weak]. }
  set (R1 := JS.scaled (q1 * inject_Z (2 ^ 1074))) in *.
  set (R2 := JS.scaled (q2 * inject_Z (2 ^ 1074))) in *.
  set (T := (2 ^ 2098)%Z) in *.
  destruct (Z.leb_spec T R1), (Z.leb_spec T R2); try reflexivity; [lia |].
  apply leb_Fin, Q2Qc_le.
  apply Qmult_le_compat_r; [now rewrite <- Zle_Qle |].
  now apply Qinv_le_0_compat, Qlt_le_weak.
Qed.

Lemma round_pos_nonneg (q : Q) :
  0 <= q -> JS.leb (Fin (Q2Qc 0)) (JS.round_pos q) = true.
Proof.
  intros H0. unfold JS.round_pos.
  assert (Hc : 0 < inject_Z (2 ^ 1074)) by (apply inject_pow_pos; lia).
  assert (HR : (0 <= JS.scaled (q * inject_Z (2 ^ 1074)))%Z).
  { apply scaled_nonneg, Qmult_le_0_compat; [exact H0 | now apply Qlt_le_weak]. }
  set (R := JS.scaled (q * inject_Z (2 ^ 1074))) in *.
  set (T := (2 ^ 2098)%Z) in *.
  destruct (Z.leb_spec T R); [reflexivity |].
  apply leb_Fin, Q2Qc_le.
  apply Qle_shift_div_l; [exact Hc |]. rewrite Qmult_0_l.
  change 0 with (inject_Z 0). now rewrite <- Zle_Qle.
Qed.

Lemma round_pos_not_low (q : Q) :
  JS.round_pos q <> NaN /\ JS.round_pos q <> NegInfinity.
Proof.
  unfold JS.round_pos.
  destruct (2 ^ 2098 <=? JS.scaled (q * inject_Z (2 ^ 1074)))%Z;
    split; discriminate.
Qed.

(** The double of a nonnegative value is within one part in [2 ^ 53] of
    it, or within half the least subnormal [2 ^ -1074]. *)
Lemma round_pos_accuracy (q : Q) (r : Qc) :
  0 <= q ->
  JS.round_pos q = Fin r ->
  q - (q / inject_Z (2 ^ 53) + 1 / inject_Z (2 ^ 1075)) <= r /\
  r <= q + (q / inject_Z (2 ^ 53) + 1 / inject_Z (2 ^ 1075)).
Proof.
  intros H0. unfold JS.round_pos.
  pose proof (inject_pow_pos 1074 ltac:(lia)) as HC.
  pose proof (inject_pow_pos 53 ltac:(lia)) as HK.
  pose proof (inject_pow_pos 1075 ltac:(lia)) as HD.
  assert (ED : inject_Z (2 ^ 1075) == 2 * inject_Z (2 ^ 1074))
    by now vm_compute.
  assert (HY : 0 <= q * inject_Z (2 ^ 1074))
    by (apply Qmult_le_0_compat; lra).
  destruct (scaled_error (q * inject_Z (2 ^ 1074)) HY) as [El Eu].
  set (R := JS.scaled (q * inject_Z (2 ^ 1074))) in *.
  destruct (2 ^ 2098 <=? R)%Z; [discriminate |].
  intros E. injection E as <-. cbn [this Q2Qc]. rewrite Qred_correct.
  set (C := inject_Z (2 ^ 1074)) in *.
  set (K := inject_Z (2 ^ 53)) in *.
  set (D := inject_Z (2 ^ 1075)) in *.
  assert (E1 : (q - (q / K + 1 / D)) * C == q * C - ((1 # 2) + q * C / K)).
  { rewrite ED. field. split; lra. }
  assert (E2 : (q + (q / K + 1 / D)) * C == q * C + ((1 # 2) + q * C / K)).
  { rewrite ED. field. split; lra. }
  split.
  - apply Qle_shift_div_l; [exact HC |].
    eapply Qle_trans; [apply Qle_lteq; right; exact E1 | exact El].
  - apply Qle_shift_div_r; [exact HC |].
    eapply Qle_trans; [exact Eu | apply Qle_lteq; right; symmetry; exact E2].
Qed.

End Rounding.

Lemma Qcopp_nonneg (q : Qc) : (q <= Q2Qc 0)%Qc -> (0 <= (- q)%Qc)%Q.
Proof. intros H. apply Qcopp_le_compat in H. exact H. Qed.

Lemma round64_nonneg (q : Qc) :
  (0 <= q)%Qc -> JS.leb (Fin (Q2Qc 0)) (JS.round64 q) = true.
Proof.
  intros H. unfold JS.round64.
  destruct (Qccompare_spec q (Q2Qc 0)) as [E | E | E].
  - now apply leb_Fin.
  - exfalso. revert E. now apply Qcle_not_lt.
  - now apply round_pos_nonneg.
Qed.

Lemma round64_nonpos (q : Qc) :
  (q <= 0)%Qc -> JS.leb (JS.round64 q) (Fin (Q2Qc 0)) = true.
Proof.
  intros H. unfold JS.round64.
  destruct (Qccompare_spec q (Q2Qc 0)) as [E | E | E].
  - now apply leb_Fin.
  - apply (leb_neg (Fin (Q2Qc 0)) (JS.round_pos (- q)%Qc)).
    apply round_pos_nonneg. now apply Qcopp_nonneg.
  - exfalso. revert E. now apply Qcle_not_lt.
Qed.

(** Rounding keeps the order. *)
Lemma round64_mono (a b : Qc) :
  (a <= b)%Qc -> JS.leb (JS.round64 a) (JS.round64 b) = true.
Proof.
  intros H.
  destruct (Qclt_le_dec b (Q2Qc 0)) as [Hb | Hb].
  - assert (Ha : (a < Q2Qc 0)%Qc) by (eapply Qcle_lt_trans; eassumption).
    unfold JS.round64.
    destruct (Qccompare_spec a (Q2Qc 0)) as [E | _ | E];
      [subst a; exfalso; revert Ha; apply Qcle_not_lt, Qcle_refl | |
       exfalso; revert E; apply Qcle_not_lt, Qclt_le_weak, Ha].
    destruct (Qccompare_spec b (Q2Qc 0)) as [E | _ | E];
      [subst b; exfalso; revert Hb; apply Qcle_not_lt, Qcle_refl | |
       exfalso; revert E; apply Qcle_not_lt, Qclt_le_weak, Hb].
    apply leb_neg, round_pos_mono.
    + apply Qcopp_nonneg, Qclt_le_weak, Hb.
    + apply (Qcopp_le_compat a b H).
  - destruct (Qclt_le_dec a (Q2Qc 0)) as [Ha | Ha].
    + eapply leb_trans; [apply round64_nonpos, Qclt_le_weak, Ha |].
      now apply round64_nonneg.
    + unfold JS.round64.
      destruct (Qccompare_spec a (Q2Qc 0)) as [E | E | E].
      * subst a. destruct (Qccompare_spec b (Q2Qc 0)) as [E' | E' | E'].
        -- now apply leb_Fin.
        -- exfalso. revert E'. now apply Qcle_not_lt.
        -- now apply round_pos_nonneg.
      * exfalso. revert E. now apply Qcle_not_lt.
      * destruct (Qccompare_spec b (Q2Qc 0)) as [E' | E' | E'].
        -- subst b. exfalso. revert E. now apply Qcle_not_lt.
        -- exfalso. revert E'. now apply Qcle_not_lt.
        -- apply round_pos_mono; [exact Ha | exact H].
Qed.

Lemma round64_not_nan (q : Qc) : JS.round64 q <> NaN.
Proof.
  unfold JS.round64. destruct (q ?= Q2Qc 0)%Qc; try discriminate.
  - destruct (round_pos_not_low (- q)%Qc) as [H1 H2].
    destruct (JS.round_pos (- q)%Qc); try discriminate; congruence.
  - apply round_pos_not_low.
Qed.

Lemma same_number_eq (a b : number) : same_number a b = true -> a = b.
Proof.
  destruct a as [| | x |], b as [| | y |]; try discriminate;
    try reflexivity.
  intros H. f_equal. now apply Qc_eq_bool_correct.
Qed.

Lemma round64_0 : JS.round64 (Q2Qc 0) = Fin (Q2Qc 0).
Proof. reflexivity. Qed.

Lemma round64_1 : JS.round64 (Q2Qc 1) = Fin (Q2Qc 1).
Proof. apply same_number_eq. now vm_compute. Qed.

Lemma round64_100 : JS.round64 (JS.Qc_of_Z 100) = Fin (JS.Qc_of_Z 100).
Proof. apply same_number_eq. now vm_compute. Qed.

Lemma round64_400 : JS.round64 (JS.Qc_of_Z 400) = Fin (JS.Qc_of_Z 400).
Proof. apply same_number_eq. now vm_compute. Qed.

(** The model against the engine: [7 / 400] is not a double, and its
    double times 100 is [1.7500000000000002]; one tenth is the double
    [0.1000000000000000055511151231257827...]. *)
Lemma round64_examples :
  JS.div (JS.of_Z 7) (JS.of_Z 400) =
    Fin (Q2Qc (1261007895663739 # 72057594037927936)) /\
  JS.mul (JS.div (JS.of_Z 7) (JS.of_Z 400)) 100%js =
    Fin (Q2Qc (7881299347898369 # 4503599627370496)) /\
  JS.div (JS.of_Z 1) (JS.of_Z 10) =
    Fin (Q2Qc (3602879701896397 # 36028797018963968)) /\
  JS.sub 100%js (Fin (Q2Qc (7881299347898369 # 4503599627370496))) =
    Fin (Q2Qc (393 # 4)).
Proof. repeat split; apply same_number_eq; now vm_compute. Qed.

(** At the edges of the format: the greatest double is kept; half way
    from it to [2 ^ 1024] the tie goes to the even neighbour and
    overflows; [2 ^ 53 + 1] is a tie and goes to the even [2 ^ 53];
    three halves of the least subnormal go up to two of it, and half of
    it goes down to zero; negative values mirror positive ones. *)
Lemma round64_boundaries :
  JS.round64 (JS.Qc_of_Z (2 ^ 1024 - 2 ^ 971)) =
    Fin (JS.Qc_of_Z (2 ^ 1024 - 2 ^ 971)) /\
  JS.round64 (JS.Qc_of_Z (2 ^ 1024 - 2 ^ 970)) = PosInfinity /\
  JS.round64 (JS.Qc_of_Z (2 ^ 1024 - 2 ^ 970 - 1)) =
    Fin (JS.Qc_of_Z (2 ^ 1024 - 2 ^ 971)) /\
  JS.round64 (JS.Qc_of_Z (- (2 ^ 1024))) = NegInfinity /\
  JS.round64 (JS.Qc_of_Z (2 ^ 53 + 1)) = Fin (JS.Qc_of_Z (2 ^ 53)) /\
  JS.round64 (JS.Qc_of_Z (2 ^ 53 + 3)) = Fin (JS.Qc_of_Z (2 ^ 53 + 4)) /\
  JS.round64 (JS.Qc_of_Z 3 / JS.Qc_of_Z (2 ^ 1075))%Qc =
    Fin (JS.Qc_of_Z 2 / JS.Qc_of_Z (2 ^ 1074))%Qc /\
  JS.round64 (JS.Qc_of_Z 1 / JS.Qc_of_Z (2 ^ 1075))%Qc = Fin (JS.Qc_of_Z 0) /\
  JS.round64 (- (JS.Qc_of_Z 1 / JS.Qc_of_Z 3))%Qc =
    Fin (Q2Qc (- 6004799503160661 # 18014398509481984)).
Proof. repeat split; apply same_number_eq; now vm_compute. Qed.

(** A value between two doubles rounds to a double between them. *)
Lemma round64_between (lo hi y : Qc) :
  JS.round64 lo = Fin lo -> JS.round64 hi = Fin hi ->
  (lo <= y)%Qc -> (y <= hi)%Qc ->
  exists r : Qc, JS.round64 y = Fin r /\ (lo <= r)%Qc /\ (r <= hi)%Qc.
Proof.
  intros Elo Ehi Hl Hh.
  pose proof (round64_mono lo y Hl) as H1.
  pose proof (round64_mono y hi Hh) as H2.
  rewrite Elo in H1. rewrite Ehi in H2.
  destruct (JS.round64 y) as [| | r |]; try discriminate.
  exists r. split; [reflexivity |]. now rewrite <- !leb_Fin_iff.
Qed.

(** ** The clamp of the code and the clamp of the specification *)

(** [Math.max(0, Math.min(d, w))] is [clamp(d, 0, w)] when [0 < w], for
    every [d]: finite, infinite or [NaN]. *)
Lemma Math_max_min_clamp (d : number) (w : Qc) :
  (0 < w)%Qc ->
  Math_max 0%js (Math_min d (Fin w)) = clamp d 0%js (Fin w).
Proof.
  intros Hw. destruct d as [| | d |];
    unfold Math_max, Math_min, clamp, js_lt, JS.of_Z, JS.Qc_of_Z;
    number_cases.
Qed.

Lemma clamp_bounds (d : number) (w : Qc) :
  d <> NaN -> (0 < w)%Qc ->
  exists x : Qc, clamp d 0%js (Fin w) = Fin x /\ (0 <= x)%Qc /\ (x <= w)%Qc.
Proof.
  intros Hd Hw. destruct d as [| | d |]; [contradiction | | |];
    unfold clamp, js_lt, JS.of_Z, JS.Qc_of_Z; cbn [JS.compare].
  - exists (Q2Qc 0). repeat split; qc_order.
  - qc_cases; subst;
      solve [ exists (Q2Qc (inject_Z 0)); repeat split; qc_order
            | exists w; repeat split; qc_order
            | exists d; repeat split; qc_order ].
  - qc_cases; subst;
      solve [ exists w; repeat split; qc_order | exfalso; qc_order ].
Qed.

Lemma clamp_low (d : number) (w : Qc) :
  (0 < w)%Qc -> JS.leb d 0%js = true -> clamp d 0%js (Fin w) = 0%js.
Proof.
  intros Hw. destruct d as [| | d |];
    unfold clamp, js_lt, JS.leb, JS.of_Z, JS.Qc_of_Z; cbn [JS.compare];
    try discriminate; try reflexivity.
  qc_cases; subst; try discriminate; intros _;
    solve [ reflexivity | exfalso; qc_order ].
Qed.

Lemma clamp_high (d : number) (w : Qc) :
  (0 < w)%Qc -> JS.leb (Fin w) d = true -> clamp d 0%js (Fin w) = Fin w.
Proof.
  intros Hw. destruct d as [| | d |];
    unfold clamp, js_lt, JS.leb, JS.of_Z, JS.Qc_of_Z; cbn [JS.compare];
    try discriminate.
  - qc_cases; subst; try discriminate; intros _;
      solve [ reflexivity | exfalso; qc_order ].
  - qc_cases; subst; try discriminate; intros _;
      solve [ reflexivity | exfalso; qc_order ].
Qed.

Lemma clamp_monotone (d1 d2 : number) (w : Qc) :
  (0 < w)%Qc -> JS.leb d1 d2 = true ->
  JS.leb (clamp d1 0%js (Fin w)) (clamp d2 0%js (Fin w)) = true.
Proof.
  intros Hw. destruct d1 as [| | d1 |], d2 as [| | d2 |];
    unfold clamp, js_lt, JS.leb, JS.of_Z, JS.Qc_of_Z; cbn [JS.compare];
    try discriminate; intros H; revert H;
    qc_cases; subst; cbn [JS.compare]; try discriminate; intros _;
    qc_cases; subst; solve [ reflexivity | exfalso; qc_order ].
Qed.

Lemma div_by_positive (x w : Qc) :
  (0 < w)%Qc -> (Fin x / Fin w)%js = JS.round64 (x / w).
Proof.
  intros Hw. cbn [JS.div]. destruct (Qccompare_spec w 0); subst;
    solve [ reflexivity | exfalso; qc_order ].
Qed.

(** A part of the width over the width is a double between 0 and 1. *)
Lemma fraction_rounds (x w : Qc) :
  (0 < w)%Qc -> (0 <= x)%Qc -> (x <= w)%Qc ->
  exists r : Qc, JS.round64 (x / w) = Fin r /\ (0 <= r)%Qc /\ (r <= 1)%Qc.
Proof.
  intros Hw H0 H1. destruct (fraction_bounds x w Hw H0 H1) as [A B].
  exact (round64_between (Q2Qc 0) (Q2Qc 1) (x / w) round64_0 round64_1 A B).
Qed.

(** A hundred times a double between 0 and 1 is a double between 0 and
    100. *)
Lemma percent_rounds (r : Qc) :
  (0 <= r)%Qc -> (r <= 1)%Qc ->
  exists p : Qc,
    JS.round64 (r * JS.Qc_of_Z 100) = Fin p /\
    (0 <= p)%Qc /\ (p <= JS.Qc_of_Z 100)%Qc.
Proof.
  intros H0 H1. destruct (percent_bounds r H0 H1) as [A B].
  exact (round64_between (Q2Qc 0) (JS.Qc_of_Z 100) (r * JS.Qc_of_Z 100)
           round64_0 round64_100 A B).
Qed.

(** [percentage] on a laid-out container, operation by operation: the
    offset, rounded; its clamp; the quotient by the width, rounded; the
    product with 100, rounded. *)
Lemma percentage_laid_out (cx l w : Qc) :
  (0 < w)%Qc ->
  exists x r : Qc,
    clamp (JS.round64 (cx - l)) 0%js (Fin w) = Fin x /\
    JS.round64 (x / w) = Fin r /\
    (0 <= r)%Qc /\ (r <= 1)%Qc /\
    percentage (mkRect (Fin l) (Fin w)) (Fin cx) =
    JS.round64 (r * JS.Qc_of_Z 100).
Proof.
  intros Hw. unfold percentage. cbn [left width JS.sub].
  rewrite Math_max_min_clamp by assumption.
  destruct (clamp_bounds (JS.round64 (cx - l)) w (round64_not_nan _) Hw)
    as (x & Ex & X0 & X1).
  destruct (fraction_rounds x w Hw X0 X1) as (r & Er & R0 & R1).
  exists x, r. rewrite Ex, div_by_positive, Er by assumption.
  repeat split; assumption || reflexivity.
Qed.

Lemma in_range_Fin (q : Qc) :
  (0 <= q)%Qc -> (q <= JS.Qc_of_Z 100)%Qc -> in_range (Fin q) = true.
Proof.
  intros H0 H1. unfold in_range, JS.leb, JS.of_Z. cbn [JS.compare].
  qc_cases; subst; solve [ reflexivity | exfalso; qc_order ].
Qed.

Lemma percentage_in_range (cx l w : Qc) :
  (0 < w)%Qc ->
  in_range (percentage (mkRect (Fin l) (Fin w)) (Fin cx)) = true.
Proof.
  intros Hw.
  destruct (percentage_laid_out cx l w Hw) as (x & r & _ & _ & R0 & R1 & E).
  destruct (percent_rounds r R0 R1) as (p & Ep & P0 & P1).
  rewrite E, Ep. now apply in_range_Fin.
Qed.

(** Against a zero width the clamp is zero whatever the offset, so
    [percentage] divides zero by zero. *)
Lemma Math_max_min_zero (d : number) :
  d <> NaN -> Math_max 0%js (Math_min d 0%js) = 0%js.
Proof.
  intros Hd. destruct d as [| | d |]; [contradiction | | |];
    unfold Math_max, Math_min, JS.of_Z, JS.Qc_of_Z; cbn [JS.compare];
    try reflexivity.
  destruct (Qccompare_spec d (Q2Qc (inject_Z 0))); cbn [JS.compare];
    qc_cases; subst; solve [ reflexivity | exfalso; qc_order ].
Qed.

Lemma percentage_zero_width (cx l : Qc) :
  percentage (mkRect (Fin l) 0%js) (Fin cx) = NaN.
Proof.
  unfold percentage. cbn [left width JS.sub].
  now rewrite Math_max_min_zero by apply round64_not_nan.
Qed.

(** ** Events that reach [handleMove] *)

Lemma step_handled (ref : containerRef) (ev : event) (s : state) (cx : number) :
  handled ev s cx -> step ref ev s = Ok (handleMove ref cx s).
Proof.
  intros H. destruct H as [e s | e s Hd | t ts s Hd]; cbn.
  - reflexivity.
  - now rewrite Hd.
  - now rewrite Hd.
Qed.

(** With no element attached, [handleMove] returns at once. *)
Lemma null_ref_ignored (ev : event) (s : state) (cx : number) :
  handled ev s cx -> step None ev s = Ok s.
Proof. intros H. now rewrite (step_handled None ev s cx H). Qed.

(** A handled pointer on an attached container stores the percentage and
    leaves the drag flag. *)
Lemma step_attached (rect : DOMRect) (ev : event) (s : state) (cx : number) :
  handled ev s cx ->
  step (Some rect) ev s =
  Ok {| sliderPosition := percentage rect cx; isDragging := isDragging s |}.
Proof. intros H. now rewrite (step_handled _ ev s cx H). Qed.

(** States are equal when their positions and their flags are. *)
Lemma state_eq (s s' : state) :
  same_number (sliderPosition s) (sliderPosition s') = true ->
  isDragging s = isDragging s' ->
  s = s'.
Proof.
  destruct s as [p d], s' as [p' d']. cbn. intros Hp ->.
  now rewrite (same_number_eq p p' Hp).
Qed.

(** On a laid-out container a handled pointer stores the formula of the
    specification, each operation rounded to binary64. *)
Lemma step_laid_out (ev : event) (s : state) (cx l w : Qc) :
  handled ev s (Fin cx) ->
  (0 < w)%Qc ->
  exists x r : Qc,
    clamp (JS.round64 (cx - l)) 0%js (Fin w) = Fin x /\
    JS.round64 (x / w) = Fin r /\
    step (Some (mkRect (Fin l) (Fin w))) ev s =
    Ok {| sliderPosition := JS.round64 (r * JS.Qc_of_Z 100);
          isDragging := isDragging s |}.
Proof.
  intros H Hw.
  destruct (percentage_laid_out cx l w Hw) as (x & r & Ex & Er & _ & _ & E).
  exists x, r. rewrite (step_attached _ ev s (Fin cx) H), E.
  repeat split; assumption.
Qed.

(** C1. For every pointer move handled while dragging and every direct
    click, with a container of left offset [l] and width [w > 0] and a
    pointer at [cx], the position stored is
    [clamp(cx - l, 0, w) / w * 100] as JavaScript evaluates it: with [x]
    the clamp of the rounded offset and [r] the rounded quotient [x / w],
    it is the rounded product [r * 100]; the drag flag is left as it
    was. *)
Theorem position_is_clamped_percentage :
  forall (ev : event) (s : state) (cx l w : Qc),
    handled ev s (Fin cx) ->
    (0 < w)%Qc ->
    exists x r : Qc,
      clamp (JS.round64 (cx - l)) 0%js (Fin w) = Fin x /\
      JS.round64 (x / w) = Fin r /\
      step (Some (mkRect (Fin l) (Fin w))) ev s =
      Ok {| sliderPosition := JS.round64 (r * JS.Qc_of_Z 100);
            isDragging := isDragging s |}.
Proof. intros ev s cx l w. apply step_laid_out. Qed.

(** A click at 7 on a container of width 400 whose left edge is at 0:
    the offset is 7, the quotient the double of [7 / 400], and the
    position the double [1.7500000000000002], not [7/4]. *)
Lemma position_is_clamped_percentage_witness :
  handled (container_click (mouse_at 7)) initial (JS.of_Z 7) /\
  (0 < JS.Qc_of_Z 400)%Qc /\
  step (Some (mkRect (Fin (JS.Qc_of_Z 0)) (Fin (JS.Qc_of_Z 400))))
       (container_click (mouse_at 7)) initial =
  Ok {| sliderPosition := Fin (Q2Qc (7881299347898369 # 4503599627370496));
        isDragging := false |}.
Proof.
  split; [apply (handled_click (mouse_at 7) initial) |].
  split; [reflexivity |].
  destruct (position_is_clamped_percentage
              (container_click (mouse_at 7)) initial
              (JS.Qc_of_Z 7) (JS.Qc_of_Z 0) (JS.Qc_of_Z 400)
              (handled_click (mouse_at 7) initial) eq_refl)
    as (x & r & Ex & Er & E).
  rewrite E. clear E.
  vm_compute in Ex. injection Ex as <-.
  vm_compute in Er. injection Er as <-.
  f_equal. apply state_eq; vm_compute; reflexivity.
Defined.

(** That click stores the double [1.7500000000000002], not [7/4]. *)
Lemma click_at_seven :
  next (Some width_400) (container_click (mouse_at 7)) initial =
  {| sliderPosition := Fin (Q2Qc (7881299347898369 # 4503599627370496));
     isDragging := false |}.
Proof. apply state_eq; now vm_compute. Qed.

(** The example of the specification: a click at 100 on that container
    sets the position to 25. *)
Lemma click_at_quarter :
  next (Some width_400) (container_click (mouse_at 100)) initial =
  {| sliderPosition := JS.of_Z 25; isDragging := false |}.
Proof. apply state_eq; now vm_compute. Qed.

(** At or left of the left edge, and at or right of the right edge. *)
Lemma percentage_low (cx l w : Qc) :
  (0 < w)%Qc -> (cx - l <= 0)%Qc ->
  percentage (mkRect (Fin l) (Fin w)) (Fin cx) = 0%js.
Proof.
  intros Hw Hd. unfold percentage. cbn [left width JS.sub].
  rewrite Math_max_min_clamp, clamp_low
    by (assumption || now apply round64_nonpos).
  unfold JS.of_Z. rewrite div_by_positive by assumption.
  replace (JS.Qc_of_Z 0 / w)%Qc with (Q2Qc 0)
    by (unfold Qcdiv; now rewrite Qcmult_0_l).
  rewrite round64_0. cbn [JS.mul].
  replace (Q2Qc 0 * JS.Qc_of_Z 100)%Qc with (Q2Qc 0)
    by now rewrite Qcmult_0_l.
  apply round64_0.
Qed.

Lemma percentage_high (cx l w : Qc) :
  (0 < w)%Qc -> JS.round64 w = Fin w -> (w <= cx - l)%Qc ->
  percentage (mkRect (Fin l) (Fin w)) (Fin cx) = 100%js.
Proof.
  intros Hw Ew Hd. unfold percentage. cbn [left width JS.sub].
  pose proof (round64_mono w (cx - l)%Qc Hd) as Hle. rewrite Ew in Hle.
  rewrite Math_max_min_clamp, clamp_high by assumption.
  rewrite div_by_positive by assumption.
  replace (w / w)%Qc with (Q2Qc 1)
    by (unfold Qcdiv; now rewrite Qcmult_inv_r by now apply Qclt_0_neq).
  rewrite round64_1. unfold JS.of_Z. cbn [JS.mul].
  rewrite Qcmult_1_l. apply round64_100.
Qed.

(** C4. With a width [w > 0] that is a double, a handled pointer whose
    offset [cx - l] is at most 0 stores exactly 0, and one whose offset is
    at least [w] stores exactly 100; the event is handled, not rejected,
    and the drag flag is left as it was. *)
Theorem out_of_bounds_is_clamped :
  forall (ev : event) (s : state) (cx l w : Qc),
    handled ev s (Fin cx) ->
    (0 < w)%Qc ->
    JS.round64 w = Fin w ->
    ((cx - l <= 0)%Qc ->
     step (Some (mkRect (Fin l) (Fin w))) ev s =
     Ok {| sliderPosition := Fin (JS.Qc_of_Z 0);
           isDragging := isDragging s |}) /\
    ((w <= cx - l)%Qc ->
     step (Some (mkRect (Fin l) (Fin w))) ev s =
     Ok {| sliderPosition := Fin (JS.Qc_of_Z 100);
           isDragging := isDragging s |}).
Proof.
  intros ev s cx l w H Hw Ew.
  rewrite (step_attached _ ev s (Fin cx) H). split; intros Hd.
  - now rewrite percentage_low.
  - now rewrite percentage_high.
Qed.

(** A move at -30 (left of the container) and one at 500 (right of it)
    while dragging over a container of width 400. *)
Lemma out_of_bounds_is_clamped_witness :
  (handled (document_event (mousemove (mouse_at (-30)))) dragging_at_50
           (JS.of_Z (-30)) /\
   (0 < JS.Qc_of_Z 400)%Qc /\
   JS.round64 (JS.Qc_of_Z 400) = Fin (JS.Qc_of_Z 400) /\
   (JS.Qc_of_Z (-30) - JS.Qc_of_Z 0 <= 0)%Qc /\
   step (Some width_400) (document_event (mousemove (mouse_at (-30))))
        dragging_at_50 =
   Ok {| sliderPosition := Fin (JS.Qc_of_Z 0); isDragging := true |}) /\
  (handled (document_event (mousemove (mouse_at 500))) dragging_at_50
           (JS.of_Z 500) /\
   (JS.Qc_of_Z 400 <= JS.Qc_of_Z 500 - JS.Qc_of_Z 0)%Qc /\
   step (Some width_400) (document_event (mousemove (mouse_at 500)))
        dragging_at_50 =
   Ok {| sliderPosition := Fin (JS.Qc_of_Z 100); isDragging := true |}).
Proof.
  split.
  - split; [apply (handled_mousemove (mouse_at (-30)) dragging_at_50 eq_refl) |].
    split; [reflexivity |]. split; [exact round64_400 |].
    split; [now vm_compute |].
    apply (proj1 (out_of_bounds_is_clamped
                    (document_event (mousemove (mouse_at (-30))))
                    dragging_at_50 (JS.Qc_of_Z (-30)) (JS.Qc_of_Z 0)
                    (JS.Qc_of_Z 400)
                    (handled_mousemove (mouse_at (-30)) dragging_at_50 eq_refl)
                    eq_refl round64_400)).
    now vm_compute.
  - split; [apply (handled_mousemove (mouse_at 500) dragging_at_50 eq_refl) |].
    split; [now vm_compute |].
    apply (proj2 (out_of_bounds_is_clamped
                    (document_event (mousemove (mouse_at 500)))
                    dragging_at_50 (JS.Qc_of_Z 500) (JS.Qc_of_Z 0)
                    (JS.Qc_of_Z 400)
                    (handled_mousemove (mouse_at 500) dragging_at_50 eq_refl)
                    eq_refl round64_400)).
    now vm_compute.
Defined.

(** ** The range of the position *)

Lemma in_range_initial : in_range (sliderPosition initial) = true.
Proof. reflexivity. Qed.

Lemma laid_out_inv (rect : DOMRect) :
  laid_out rect = true ->
  exists l w : Qc, rect = mkRect (Fin l) (Fin w) /\ (0 < w)%Qc.
Proof.
  destruct rect as [[| | l |] [| | w |]]; unfold laid_out;
    cbn [left width JS.is_finite andb]; try discriminate.
  destruct (Qccompare_spec (Q2Qc 0) w) as [| Hw |]; try discriminate.
  intros _. now exists l, w.
Qed.

Lemma handleMove_in_range (ref : containerRef) (c : number) (s : state) :
  measurable ref = true ->
  JS.is_finite c = true ->
  in_range (sliderPosition s) = true ->
  in_range (sliderPosition (handleMove ref c s)) = true.
Proof.
  intros Hm Hc Hs. destruct ref as [rect |]; [| exact Hs].
  apply laid_out_inv in Hm as (l & w & -> & Hw).
  destruct c as [| | c |]; try discriminate.
  cbn [handleMove setSliderPosition sliderPosition].
  now apply percentage_in_range.
Qed.

Lemma next_in_range (ref : containerRef) (ev : event) (s : state) :
  measurable ref = true ->
  pointer_finite ev = true ->
  in_range (sliderPosition s) = true ->
  in_range (sliderPosition (next ref ev s)) = true.
Proof.
  intros Hm Hp Hs. unfold next.
  destruct ev as [| | e | [e | e | e | [[| t ts]] | e]];
    cbn -[handleMove in_range];
    try exact Hs; try (destruct (isDragging s); exact Hs).
  - now apply handleMove_in_range.
  - destruct (isDragging s); cbn -[handleMove in_range]; [| exact Hs].
    now apply handleMove_in_range.
  - destruct (isDragging s); cbn -[handleMove in_range]; [| exact Hs].
    now apply handleMove_in_range.
Qed.

(** On a laid-out page the position never leaves [0, 100], whatever the
    events and however far outside the container the pointer is. *)
Lemma run_in_range (evs : list (containerRef * event)) :
  forall s : state,
    Forall (fun p => measurable (fst p) = true /\
                     pointer_finite (snd p) = true) evs ->
    in_range (sliderPosition s) = true ->
    in_range (sliderPosition (run evs s)) = true.
Proof.
  induction evs as [| [ref ev] evs IH]; intros s Hall Hs; [exact Hs |].
  inversion Hall as [| p ps [Hm Hp] Hrest]; subst. cbn [run].
  apply IH; [assumption |]. now apply next_in_range.
Qed.

(** C2. The range invariant fails on the code: a press on the handle and
    then a move that finds the container with a bounding box of width 0
    stores [NaN], which is not a value of [0, 100]. *)
Theorem zero_width_leaves_range :
  in_range (sliderPosition initial) = true /\
  sliderPosition
    (run [(Some width_400, handle_mousedown);
          (Some zero_width, document_event (mousemove (mouse_at 10)))]
         initial) = NaN /\
  in_range
    (sliderPosition
       (run [(Some width_400, handle_mousedown);
             (Some zero_width, document_event (mousemove (mouse_at 10)))]
            initial))
  = false.
Proof. vm_compute. repeat split. Qed.

(** ** A container without geometry *)

(** C3. A pointer event on a container whose bounding box has width 0 is
    not ignored: a move while dragging replaces the position 50 by [NaN]. *)
Theorem zero_width_move_not_ignored :
  step (Some zero_width) (document_event (mousemove (mouse_at 10)))
       dragging_at_50
  = Ok {| sliderPosition := NaN; isDragging := true |} /\
  sliderPosition dragging_at_50 = 50%js.
Proof. split; [now vm_compute | reflexivity]. Qed.

(** For every handled event, finite left edge and finite coordinate, a
    bounding box of width 0 makes the position [NaN]; the drag flag is
    left as it was and nothing is thrown. *)
Lemma step_zero_width (ev : event) (s : state) (cx l : Qc) :
  handled ev s (Fin cx) ->
  step (Some (mkRect (Fin l) 0%js)) ev s =
  Ok {| sliderPosition := NaN; isDragging := isDragging s |}.
Proof.
  intros H. rewrite (step_attached _ ev s (Fin cx) H).
  now rewrite percentage_zero_width.
Qed.

(** ** The drag state machine *)

Lemma step_idle_document (ref : containerRef) (d : documentEvent) (s : state) :
  isDragging s = false -> step ref (document_event d) s = Ok s.
Proof. intros Hi. cbn. now rewrite Hi. Qed.

(** The claim of C5 fails for a touch cancellation: the drag flag stays
    set. *)
Lemma touchcancel_keeps_dragging :
  isDragging dragging_at_50 = true /\
  is_release (document_event (touchcancel no_touches)) = true /\
  isDragging
    (next (Some width_400) (document_event (touchcancel no_touches))
          dragging_at_50) = true.
Proof. repeat split. Qed.

(** C5, amended. In the dragging state a mouse-up or a touch-end on the
    document makes the component idle: the handler returns and the drag
    flag is false afterwards.  No listener is registered for a touch
    cancellation: after it the drag flag is still true. *)
Theorem release_ends_drag :
  forall (ref : containerRef) (s : state),
    isDragging s = true ->
    (forall e, exists s',
        step ref (document_event (mouseup e)) s = Ok s' /\
        isDragging s' = false) /\
    (forall e, exists s',
        step ref (document_event (touchend e)) s = Ok s' /\
        isDragging s' = false) /\
    (forall e, exists s',
        step ref (document_event (touchcancel e)) s = Ok s' /\
        isDragging s' = true).
Proof.
  intros ref s Hd. repeat split; intros e; cbn; rewrite Hd; cbn;
    eexists; (split; [reflexivity |]); [reflexivity | reflexivity | exact Hd].
Qed.

Lemma release_ends_drag_witness :
  isDragging dragging_at_50 = true /\
  (forall e, exists s',
      step (Some width_400) (document_event (mouseup e)) dragging_at_50 =
      Ok s' /\ isDragging s' = false) /\
  (forall e, exists s',
      step (Some width_400) (document_event (touchend e)) dragging_at_50 =
      Ok s' /\ isDragging s' = false) /\
  (forall e, exists s',
      step (Some width_400) (document_event (touchcancel e)) dragging_at_50 =
      Ok s' /\ isDragging s' = true).
Proof.
  split; [reflexivity |].
  apply (release_ends_drag (Some width_400) dragging_at_50). reflexivity.
Defined.

(** Idle, the component has no listener on the document: events that are
    neither presses nor clicks pass without effect. *)
Lemma idle_run (s : state) (evs : list (containerRef * event)) :
  isDragging s = false ->
  Forall (fun p => is_press (snd p) = false /\ is_click (snd p) = false)
         evs ->
  Forall (fun p => step (fst p) (snd p) s = Ok s) evs /\
  run evs s = s.
Proof.
  intros Hi. induction evs as [| [ref ev] evs IH]; intros Hall.
  - split; [constructor | reflexivity].
  - inversion Hall as [| p ps [Hp Hc] Hrest]; subst.
    destruct (IH Hrest) as [IH1 IH2].
    assert (E : step ref ev s = Ok s).
    { destruct ev as [| | e | d]; try discriminate.
      now apply step_idle_document. }
    split; [now constructor |].
    cbn [run]. unfold next. now rewrite E.
Qed.

(** C6. In the idle state, every event that is neither a press nor a click
    -- every move and every release on the document -- is handled without
    error and leaves the state, hence the position, as it was; so does any
    sequence of them. *)
Theorem idle_moves_keep_position :
  forall (s : state) (evs : list (containerRef * event)),
    isDragging s = false ->
    Forall (fun p => is_press (snd p) = false /\ is_click (snd p) = false)
           evs ->
    Forall (fun p => step (fst p) (snd p) s = Ok s) evs /\
    run evs s = s.
Proof. exact idle_run. Qed.

(** Moves by mouse and by touch, with and without a container, after the
    drag of [dragging_at_50] was released. *)
Lemma idle_moves_keep_position_witness :
  isDragging (setIsDragging false dragging_at_50) = false /\
  Forall (fun p => is_press (snd p) = false /\ is_click (snd p) = false)
    [(Some width_400, document_event (mousemove (mouse_at 300)));
     (Some width_400,
      document_event (touchmove (mkTouches [mkTouch (JS.of_Z 10)])));
     (None, document_event (mousemove (mouse_at 7)))] /\
  run [(Some width_400, document_event (mousemove (mouse_at 300)));
       (Some width_400,
        document_event (touchmove (mkTouches [mkTouch (JS.of_Z 10)])));
       (None, document_event (mousemove (mouse_at 7)))]
      (setIsDragging false dragging_at_50)
  = setIsDragging false dragging_at_50.
Proof.
  split; [reflexivity |].
  split; [repeat constructor |].
  apply (idle_moves_keep_position (setIsDragging false dragging_at_50)
           [(Some width_400, document_event (mousemove (mouse_at 300)));
            (Some width_400,
             document_event (touchmove (mkTouches [mkTouch (JS.of_Z 10)])));
            (None, document_event (mousemove (mouse_at 7)))]).
  - reflexivity.
  - repeat constructor.
Defined.

(** From a drag to its release and on: the position at the release is the
    position after any later moves. *)
Lemma released_drag_freezes_position
    (ref : containerRef) (d : documentEvent) (s : state)
    (evs : list (containerRef * event)) :
  isDragging s = true ->
  (exists e, d = mouseup e) \/ (exists e, d = touchend e) ->
  Forall (fun p => is_move (snd p) = true) evs ->
  run ((ref, document_event d) :: evs) s = setIsDragging false s.
Proof.
  intros Hd Hrel Hall. cbn [run].
  assert (E : next ref (document_event d) s = setIsDragging false s).
  { unfold next. destruct Hrel as [[e ->] | [e ->]]; cbn; now rewrite Hd. }
  rewrite E. apply idle_run; [reflexivity |].
  eapply Forall_impl; [| exact Hall].
  intros [r ev] Hm. cbn in *. now destruct ev as [| | e | [| | | |]].
Qed.

(** ** Clicks *)

(** A click never touches the drag flag, whatever the state and the
    container. *)
Lemma click_keeps_drag_flag (ref : containerRef) (e : MouseEvent) (s : state) :
  isDragging (next ref (container_click e) s) = isDragging s.
Proof. now destruct ref. Qed.

(** A click stores what a move to the same coordinate stores in a drag
    begun from the same state. *)
Lemma click_as_drag_move (ref : containerRef) (e : MouseEvent) (s : state) :
  sliderPosition (next ref (container_click e) s) =
  sliderPosition (next ref (document_event (mousemove e)) (onMouseDown s)).
Proof. now destruct ref. Qed.

(** C7. A click on the container in the idle state stores the clamped
    percentage of the clicked coordinate, computed as for a move -- with
    [x] the clamp of the rounded offset and [r] the rounded quotient
    [x / w], the rounded product [r * 100], which is the position that a
    move to that coordinate stores during a drag -- and leaves the
    component idle. *)
Theorem click_repositions_and_stays_idle :
  forall (s : state) (cx l w : Qc),
    isDragging s = false ->
    (0 < w)%Qc ->
    (exists x r : Qc,
        clamp (JS.round64 (cx - l)) 0%js (Fin w) = Fin x /\
        JS.round64 (x / w) = Fin r /\
        step (Some (mkRect (Fin l) (Fin w)))
             (container_click (mkMouse (Fin cx))) s
        = Ok {| sliderPosition := JS.round64 (r * JS.Qc_of_Z 100);
                isDragging := false |}) /\
    sliderPosition
      (next (Some (mkRect (Fin l) (Fin w)))
            (container_click (mkMouse (Fin cx))) s)
    = sliderPosition
        (next (Some (mkRect (Fin l) (Fin w)))
              (document_event (mousemove (mkMouse (Fin cx))))
              (onMouseDown s)).
Proof.
  intros s cx l w Hi Hw. split.
  - destruct (step_laid_out (container_click (mkMouse (Fin cx))) s cx l w
                (handled_click (mkMouse (Fin cx)) s) Hw)
      as (x & r & Ex & Er & E).
    exists x, r. rewrite Hi in E. repeat split; assumption.
  - apply click_as_drag_move.
Qed.

Lemma click_repositions_and_stays_idle_witness :
  isDragging initial = false /\
  (0 < JS.Qc_of_Z 400)%Qc /\
  step (Some (mkRect (Fin (JS.Qc_of_Z 0)) (Fin (JS.Qc_of_Z 400))))
       (container_click (mkMouse (Fin (JS.Qc_of_Z 7)))) initial
  = Ok {| sliderPosition := Fin (Q2Qc (7881299347898369 # 4503599627370496));
          isDragging := false |}.
Proof.
  split; [reflexivity |]. split; [reflexivity |].
  destruct (proj1 (click_repositions_and_stays_idle initial (JS.Qc_of_Z 7)
                     (JS.Qc_of_Z 0) (JS.Qc_of_Z 400) eq_refl eq_refl))
    as (x & r & Ex & Er & E).
  rewrite E. clear E.
  vm_compute in Ex. injection Ex as <-.
  vm_compute in Er. injection Er as <-.
  f_equal. apply state_eq; vm_compute; reflexivity.
Defined.

(** ** Rendering *)

(** C8. For every stored position [p], the overlay of the "before" image
    is clipped by [inset(0 (100 - p)% 0 0)] and the handle is placed at
    [left: p%]: for a finite [p] the inset is the double nearest to
    [100 - p]; for [NaN] it is [NaN], and for an infinity the opposite
    infinity. *)
Theorem render_follows_position :
  forall dragging : bool,
    (forall q : Qc,
        render {| sliderPosition := Fin q; isDragging := dragging |} =
        {| before_clipPath :=
             mkInset Zero (Percent (JS.round64 (JS.Qc_of_Z 100 - q))) Zero Zero;
           handle_left := Percent (Fin q) |}) /\
    render {| sliderPosition := NaN; isDragging := dragging |} =
    {| before_clipPath := mkInset Zero (Percent NaN) Zero Zero;
       handle_left := Percent NaN |} /\
    render {| sliderPosition := PosInfinity; isDragging := dragging |} =
    {| before_clipPath := mkInset Zero (Percent NegInfinity) Zero Zero;
       handle_left := Percent PosInfinity |} /\
    render {| sliderPosition := NegInfinity; isDragging := dragging |} =
    {| before_clipPath := mkInset Zero (Percent PosInfinity) Zero Zero;
       handle_left := Percent NegInfinity |}.
Proof. intros dragging. repeat split. Qed.

(** For a position of [0, 100] the inset is a double of [0, 100]. *)
Lemma render_inset_in_range (q : Qc) (dragging : bool) :
  (0 <= q)%Qc -> (q <= JS.Qc_of_Z 100)%Qc ->
  exists r : Qc,
    inset_right (before_clipPath (render (mkState (Fin q) dragging))) =
    Percent (Fin r) /\ (0 <= r)%Qc /\ (r <= JS.Qc_of_Z 100)%Qc.
Proof.
  intros H0 H1.
  destruct (round64_between (Q2Qc 0) (JS.Qc_of_Z 100) (JS.Qc_of_Z 100 - q)
              round64_0 round64_100) as (r & Er & R0 & R1).
  - exact (proj1 (Qcle_minus_iff q (JS.Qc_of_Z 100)) H1).
  - rewrite <- (Qcplus_0_r (JS.Qc_of_Z 100)) at 2. unfold Qcminus.
    apply Qcplus_le_compat; [apply Qcle_refl |].
    exact (Qcopp_le_compat (Q2Qc 0) q H0).
  - exists r. cbn [render before_clipPath inset_right sliderPosition JS.sub].
    unfold JS.of_Z. cbn [JS.sub]. now rewrite Er.
Qed.

(** The position [1.7500000000000002] is drawn with an inset of exactly
    [98.25]. *)
Lemma render_after_click_at_seven :
  inset_right
    (before_clipPath
       (render (next (Some width_400) (container_click (mouse_at 7)) initial)))
  = Percent (Fin (Q2Qc (393 # 4))).
Proof.
  rewrite click_at_seven. cbn [render before_clipPath inset_right sliderPosition].
  f_equal. apply same_number_eq. now vm_compute.
Qed.

(** ** No drift *)

Lemma handleMove_idempotent (ref : containerRef) (cx : number) (s : state) :
  handleMove ref cx (handleMove ref cx s) = handleMove ref cx s.
Proof. now destruct ref. Qed.

Lemma next_idempotent (ref : containerRef) (ev : event) (s : state) :
  next ref ev (next ref ev s) = next ref ev s.
Proof.
  unfold next.
  destruct ev as [| | e | [e | e | e | [[| t ts]] | e]]; cbn;
    try reflexivity; try apply handleMove_idempotent;
    destruct (isDragging s) eqn:Hd; cbn; rewrite ?Hd; cbn;
    try reflexivity; destruct ref; cbn; rewrite ?Hd; reflexivity.
Qed.

(** C9. Handling a coordinate twice with the same geometry gives what
    handling it once gives, for [handleMove] and for every event, and the
    position stored does not depend on the state before. *)
Theorem same_coordinate_twice :
  forall (ref : containerRef) (cx : number) (s : state),
    handleMove ref cx (handleMove ref cx s) = handleMove ref cx s /\
    (forall ev : event, next ref ev (next ref ev s) = next ref ev s) /\
    (forall (rect : DOMRect) (s' : state),
        sliderPosition (handleMove (Some rect) cx s) =
        sliderPosition (handleMove (Some rect) cx s')).
Proof.
  intros ref cx s. split; [apply handleMove_idempotent |].
  split; [intros ev; apply next_idempotent | reflexivity].
Qed.

(** ** The initial state *)

(** C10. Before any event the position is 50 and the component is idle. *)
Theorem initial_state :
  sliderPosition (run [] initial) = Fin (JS.Qc_of_Z 50) /\
  isDragging (run [] initial) = false.
Proof. split; reflexivity. Qed.

(** 50 is the midpoint: the handle and the clip edge start halfway. *)
Lemma initial_render :
  inset_right (before_clipPath (render initial)) = Percent 50%js /\
  handle_left (render initial) = Percent 50%js.
Proof.
  split; [| reflexivity].
  cbn [render before_clipPath inset_right sliderPosition initial].
  f_equal. apply same_number_eq. now vm_compute.
Qed.

(** * Further properties of the slider *)

(** ** Geometry of [percentage] *)

Lemma percentage_le (c1 c2 l w : Qc) :
  (0 < w)%Qc -> (c1 <= c2)%Qc ->
  JS.leb (percentage (mkRect (Fin l) (Fin w)) (Fin c1))
         (percentage (mkRect (Fin l) (Fin w)) (Fin c2)) = true.
Proof.
  intros Hw Hc.
  destruct (percentage_laid_out c1 l w Hw) as (x1 & r1 & Ex1 & Er1 & _ & _ & E1).
  destruct (percentage_laid_out c2 l w Hw) as (x2 & r2 & Ex2 & Er2 & _ & _ & E2).
  rewrite E1, E2.
  assert (Hd : (c1 - l <= c2 - l)%Qc).
  { unfold Qcminus. apply Qcplus_le_compat; [assumption | apply Qcle_refl]. }
  pose proof (clamp_monotone _ _ w Hw (round64_mono _ _ Hd)) as Hx.
  rewrite Ex1, Ex2 in Hx. apply leb_Fin_iff in Hx.
  assert (Hq : (x1 / w <= x2 / w)%Qc).
  { unfold Qcdiv. apply Qcmult_le_compat_r; [assumption |].
    now apply Qcinv_nonneg. }
  pose proof (round64_mono _ _ Hq) as Hr.
  rewrite Er1, Er2 in Hr. apply leb_Fin_iff in Hr.
  apply round64_mono, Qcmult_le_compat_r; [assumption | apply hundred_nonneg].
Qed.

(** Moving the pointer to the right never moves the divider to the left:
    on a laid-out container [percentage] is monotone in [clientX]. *)
Theorem percentage_monotone :
  forall (rect : DOMRect) (c1 c2 : Qc),
    laid_out rect = true ->
    (c1 <= c2)%Qc ->
    JS.leb (percentage rect (Fin c1)) (percentage rect (Fin c2)) = true.
Proof.
  intros rect c1 c2 Hr Hc.
  apply laid_out_inv in Hr as (l & w & -> & Hw).
  now apply percentage_le.
Qed.

Lemma percentage_monotone_witness :
  laid_out width_400 = true /\
  (JS.Qc_of_Z 100 <= JS.Qc_of_Z 300)%Qc /\
  JS.leb (percentage width_400 (Fin (JS.Qc_of_Z 100)))
         (percentage width_400 (Fin (JS.Qc_of_Z 300))) = true.
Proof.
  split; [reflexivity |]. split; [now vm_compute |].
  apply (percentage_monotone width_400 (JS.Qc_of_Z 100) (JS.Qc_of_Z 300)).
  - reflexivity.
  - now vm_compute.
Defined.

(** The position depends on the pointer and the left edge through their
    difference only: shifting both by the same amount (a scroll, a moved
    container) gives the same percentage, whatever the width. *)
Theorem percentage_translation_invariant :
  forall (cx l d : Qc) (w : number),
    percentage (mkRect (Fin (l + d)) w) (Fin (cx + d)) =
    percentage (mkRect (Fin l) w) (Fin cx).
Proof.
  intros cx l d w. unfold percentage. cbn [left width JS.sub].
  replace (cx + d - (l + d))%Qc with (cx - l)%Qc by ring.
  reflexivity.
Qed.

(** Turning the stored percentage back into pixels does not give the
    pointer's offset exactly: after the click at 7 on the container 400
    wide, [sliderPosition / 100 * 400] is the double next above 7. *)
Lemma back_to_pixels_is_rounded :
  ((percentage width_400 (JS.of_Z 7) / 100) * JS.of_Z 400)%js =
  Fin (Q2Qc (7881299347898369 # 1125899906842624)) /\
  (JS.Qc_of_Z 7 < Q2Qc (7881299347898369 # 1125899906842624))%Qc.
Proof. split; [apply same_number_eq |]; now vm_compute. Qed.

(** ** The range of the position, continued *)

(** A press, a move far to the right, a move with no container attached
    and the release, on a container 400 wide. *)
Lemma run_in_range_witness :
  Forall (fun p => measurable (fst p) = true /\
                   pointer_finite (snd p) = true)
    [(Some width_400, handle_mousedown);
     (Some width_400, document_event (mousemove (mouse_at 500)));
     (None, document_event (mousemove (mouse_at 3)));
     (Some width_400, document_event (mouseup (mouse_at 3)))] /\
  in_range (sliderPosition initial) = true /\
  in_range
    (sliderPosition
       (run [(Some width_400, handle_mousedown);
             (Some width_400, document_event (mousemove (mouse_at 500)));
             (None, document_event (mousemove (mouse_at 3)));
             (Some width_400, document_event (mouseup (mouse_at 3)))]
            initial)) = true.
Proof.
  split; [repeat constructor |]. split; [reflexivity |].
  apply (run_in_range
           [(Some width_400, handle_mousedown);
            (Some width_400, document_event (mousemove (mouse_at 500)));
            (None, document_event (mousemove (mouse_at 3)));
            (Some width_400, document_event (mouseup (mouse_at 3)))]
           initial).
  - repeat constructor.
  - reflexivity.
Defined.

(** A handled pointer on a laid-out container stores a position of
    [0, 100] whatever the position was before: a [NaN] left by a collapsed
    container is replaced by the next such event. *)
Theorem handled_position_in_range :
  forall (ev : event) (s : state) (c : number) (rect : DOMRect),
    handled ev s c ->
    JS.is_finite c = true ->
    laid_out rect = true ->
    in_range (sliderPosition (next (Some rect) ev s)) = true.
Proof.
  intros ev s c rect H Hc Hr. unfold next.
  rewrite (step_attached _ ev s c H).
  apply laid_out_inv in Hr as (l & w & -> & Hw).
  destruct c as [| | c |]; try discriminate.
  cbn [sliderPosition]. now apply percentage_in_range.
Qed.

Lemma handled_position_in_range_witness :
  handled (document_event (mousemove (mouse_at 100))) nan_while_dragging
          (JS.of_Z 100) /\
  JS.is_finite (JS.of_Z 100) = true /\
  laid_out width_400 = true /\
  in_range (sliderPosition nan_while_dragging) = false /\
  in_range
    (sliderPosition
       (next (Some width_400) (document_event (mousemove (mouse_at 100)))
             nan_while_dragging)) = true.
Proof.
  split; [apply (handled_mousemove (mouse_at 100) nan_while_dragging eq_refl) |].
  split; [reflexivity |]. split; [reflexivity |]. split; [reflexivity |].
  apply (handled_position_in_range
           (document_event (mousemove (mouse_at 100))) nan_while_dragging
           (JS.of_Z 100) width_400).
  - apply (handled_mousemove (mouse_at 100) nan_while_dragging eq_refl).
  - reflexivity.
  - reflexivity.
Defined.

(** A move at 10 while dragging over a box of width 0 whose left edge is
    at 0. *)
Lemma step_zero_width_witness :
  handled (document_event (mousemove (mouse_at 10))) dragging_at_50
          (JS.of_Z 10) /\
  step (Some (mkRect (Fin (JS.Qc_of_Z 0)) 0%js))
       (document_event (mousemove (mouse_at 10))) dragging_at_50 =
  Ok {| sliderPosition := NaN; isDragging := isDragging dragging_at_50 |}.
Proof.
  split; [apply (handled_mousemove (mouse_at 10) dragging_at_50 eq_refl) |].
  apply (step_zero_width (document_event (mousemove (mouse_at 10)))
           dragging_at_50 (JS.Qc_of_Z 10) (JS.Qc_of_Z 0)).
  apply (handled_mousemove (mouse_at 10) dragging_at_50 eq_refl).
Defined.

(** ** What changes the state *)

(** The position changes only when a click, or a move during a drag,
    finds the container attached; it then becomes the percentage of that
    pointer. *)
Theorem position_changes_only_when_handled :
  forall (ref : containerRef) (ev : event) (s : state),
    sliderPosition (next ref ev s) <> sliderPosition s ->
    exists (rect : DOMRect) (c : number),
      ref = Some rect /\ handled ev s c /\
      sliderPosition (next ref ev s) = percentage rect c.
Proof.
  intros ref ev s Hne. unfold next in *.
  destruct ev as [| | e | [e | e | e | [[| t ts]] | e]]; cbn in *;
    try (exfalso; apply Hne; reflexivity);
    try (destruct (isDragging s) eqn:Hd; cbn in *;
         try (exfalso; apply Hne; reflexivity));
    (destruct ref as [rect |]; cbn in *;
     [| exfalso; apply Hne; reflexivity]).
  all: exists rect; eexists; split; [reflexivity |];
    split; [constructor; assumption || idtac | reflexivity].
Qed.

Lemma position_changes_only_when_handled_witness :
  sliderPosition (next (Some width_400) (container_click (mouse_at 100))
                       initial) <> sliderPosition initial /\
  exists (rect : DOMRect) (c : number),
    Some width_400 = Some rect /\
    handled (container_click (mouse_at 100)) initial c /\
    sliderPosition (next (Some width_400) (container_click (mouse_at 100))
                         initial) = percentage rect c.
Proof.
  split; [vm_compute; intros E; discriminate E |].
  apply (position_changes_only_when_handled (Some width_400)
           (container_click (mouse_at 100)) initial).
  vm_compute; intros E; discriminate E.
Defined.

(** Once dragging, the component keeps dragging through every event that
    is not a mouse-up or a touch-end: moves, clicks, further presses and
    touch cancellations all leave the flag set. *)
Theorem drag_persists_until_release :
  forall (evs : list (containerRef * event)) (s : state),
    isDragging s = true ->
    Forall (fun p => ends_drag (snd p) = false) evs ->
    isDragging (run evs s) = true.
Proof.
  induction evs as [| [ref ev] evs IH]; intros s Hd Hall; [exact Hd |].
  inversion Hall as [| p ps He Hrest]; subst. cbn [run]. apply IH; [| exact Hrest].
  unfold next. cbn in He.
  destruct ev as [| | e | [e | e | e | [[| t ts]] | e]]; cbn;
    try discriminate; rewrite ?Hd; cbn; try reflexivity; try exact Hd;
    destruct ref; cbn; exact Hd.
Qed.

Lemma drag_persists_until_release_witness :
  isDragging dragging_at_50 = true /\
  Forall (fun p => ends_drag (snd p) = false)
    [(Some width_400, document_event (mousemove (mouse_at 100)));
     (Some width_400, document_event (touchcancel no_touches));
     (Some width_400, container_click (mouse_at 7))] /\
  isDragging
    (run [(Some width_400, document_event (mousemove (mouse_at 100)));
          (Some width_400, document_event (touchcancel no_touches));
          (Some width_400, container_click (mouse_at 7))]
         dragging_at_50) = true.
Proof.
  split; [reflexivity |]. split; [repeat constructor |].
  apply (drag_persists_until_release
           [(Some width_400, document_event (mousemove (mouse_at 100)));
            (Some width_400, document_event (touchcancel no_touches));
            (Some width_400, container_click (mouse_at 7))]
           dragging_at_50).
  - reflexivity.
  - repeat constructor.
Defined.

(** Idle, the component stays idle until the handle is pressed: no click
    and no event on the document starts a drag. *)
Theorem idle_persists_until_press :
  forall (evs : list (containerRef * event)) (s : state),
    isDragging s = false ->
    Forall (fun p => is_press (snd p) = false) evs ->
    isDragging (run evs s) = false.
Proof.
  induction evs as [| [ref ev] evs IH]; intros s Hi Hall; [exact Hi |].
  inversion Hall as [| p ps He Hrest]; subst. cbn [run]. apply IH; [| exact Hrest].
  unfold next. cbn in He.
  destruct ev as [| | e | d]; try discriminate.
  - cbn. now destruct ref.
  - now rewrite step_idle_document.
Qed.

Lemma idle_persists_until_press_witness :
  isDragging initial = false /\
  Forall (fun p => is_press (snd p) = false)
    [(Some width_400, container_click (mouse_at 100));
     (Some width_400, document_event (mousemove (mouse_at 300)));
     (Some width_400, document_event (mouseup (mouse_at 300)))] /\
  isDragging
    (run [(Some width_400, container_click (mouse_at 100));
          (Some width_400, document_event (mousemove (mouse_at 300)));
          (Some width_400, document_event (mouseup (mouse_at 300)))]
         initial) = false.
Proof.
  split; [reflexivity |]. split; [repeat constructor |].
  apply (idle_persists_until_press
           [(Some width_400, container_click (mouse_at 100));
            (Some width_400, document_event (mousemove (mouse_at 300)));
            (Some width_400, document_event (mouseup (mouse_at 300)))]
           initial).
  - reflexivity.
  - repeat constructor.
Defined.

(** The only way a handler throws: a touch move with an empty touch list
    while dragging.  Idle, or with at least one touch, nothing throws. *)
Theorem throws_only_on_empty_touches :
  forall (ref : containerRef) (ev : event) (s : state),
    step ref ev s = TypeError <->
    isDragging s = true /\
    exists e : TouchEvent,
      ev = document_event (touchmove e) /\ touches e = [].
Proof.
  intros ref ev s. split.
  - destruct ev as [| | e | [e | e | e | [[| t ts]] | e]]; cbn;
      try discriminate;
      destruct (isDragging s) eqn:Hd; cbn; try discriminate.
    intros _. split; [reflexivity |]. now exists (mkTouches []).
  - intros [Hd ([ts] & -> & Ht)]. cbn in *. subst ts. now rewrite Hd.
Qed.

(** ** A whole drag gesture *)

Lemma last_nonempty_default {A : Type} (l : list A) :
  forall a d d' : A, List.last (a :: l) d = List.last (a :: l) d'.
Proof.
  induction l as [| b l IH]; intros a d d'; [reflexivity |].
  change (List.last (b :: l) d = List.last (b :: l) d'). apply IH.
Qed.

Lemma last_cons_default {A : Type} (a d : A) (l : list A) :
  List.last (a :: l) d = List.last l a.
Proof.
  destruct l as [| b l]; [reflexivity |].
  change (List.last (b :: l) d = List.last (b :: l) a).
  apply last_nonempty_default.
Qed.

Lemma run_mouse_moves (ms : list (DOMRect * number)) :
  forall (rest : list (containerRef * event)) (s : state),
    isDragging s = true ->
    run (mouse_moves ms ++ rest) s =
    run rest {| sliderPosition := last_percentage ms (sliderPosition s);
                isDragging := true |}.
Proof.
  induction ms as [| [rect c] ms IH]; intros rest s Hd.
  - cbn. now destruct s as [p d]; cbn in *; subst.
  - cbn [mouse_moves map app run fst snd].
    fold (mouse_moves ms).
    rewrite IH.
    + unfold last_percentage. cbn [map fst snd].
      rewrite last_cons_default. unfold next. cbn. now rewrite Hd.
    + unfold next. cbn. now rewrite Hd.
Qed.

(** Press, move, release: after a press on the handle, any number of mouse
    moves and a release, the component is idle and the position is the
    percentage of the last move, or the position before the press if the
    pointer did not move. *)
Theorem drag_gesture :
  forall (press release : event) (r0 r1 : containerRef)
         (ms : list (DOMRect * number)) (s : state),
    is_press press = true ->
    ends_drag release = true ->
    run ((r0, press) :: mouse_moves ms ++ [(r1, release)]) s =
    {| sliderPosition := last_percentage ms (sliderPosition s);
       isDragging := false |}.
Proof.
  intros press release r0 r1 ms s Hp Hr. cbn [run].
  assert (E : next r0 press s = setIsDragging true s)
    by (destruct press; try discriminate; reflexivity).
  rewrite E, run_mouse_moves by reflexivity.
  destruct release as [| | e | [e | e | e | e | e]]; try discriminate;
    reflexivity.
Qed.

(** A press, moves to 100 and to 300 over a container 400 wide, and the
    mouse-up. *)
Lemma drag_gesture_witness :
  is_press handle_mousedown = true /\
  ends_drag (document_event (mouseup (mouse_at 300))) = true /\
  run ((Some width_400, handle_mousedown)
         :: mouse_moves [(width_400, JS.of_Z 100); (width_400, JS.of_Z 300)]
         ++ [(Some width_400, document_event (mouseup (mouse_at 300)))])
      initial =
  {| sliderPosition :=
       last_percentage [(width_400, JS.of_Z 100); (width_400, JS.of_Z 300)]
                       (sliderPosition initial);
     isDragging := false |}.
Proof.
  split; [reflexivity |]. split; [reflexivity |].
  apply (drag_gesture handle_mousedown
           (document_event (mouseup (mouse_at 300)))
           (Some width_400) (Some width_400)
           [(width_400, JS.of_Z 100); (width_400, JS.of_Z 300)] initial);
    reflexivity.
Defined.

(** * Properties of the components around the slider *)

(** ** The table of modes *)

(** Every mode has exactly one entry in [MODES] -- so exactly one button
    of the panel is drawn selected -- and the label of that entry is the
    label the result view shows for the mode. *)
Theorem selected_entry_label :
  forall mode : ConfigurationPanel.EnhancementMode,
    map ConfigurationPanel.label
        (filter (ConfigurationPanel.selected mode) ConfigurationPanel.MODES)
    = [ResultView.MODE_LABELS mode].
Proof. intros mode. now destruct mode. Qed.

(** The entries of [MODES] have distinct ids: the keys of the buttons
    rendered from it are distinct. *)
Lemma MODES_ids_distinct :
  NoDup (map ConfigurationPanel.id ConfigurationPanel.MODES).
Proof.
  cbn. repeat constructor; cbn; intuition discriminate.
Qed.

(** Two modes are sent to the backend under the same name only if they
    are the same mode. *)
Theorem mapModeToBackend_injective :
  forall a b : ConfigurationPanel.EnhancementMode,
    String.eqb (App.mapModeToBackend a) (App.mapModeToBackend b) =
    ConfigurationPanel.mode_eqb a b.
Proof. intros a b. now destruct a, b. Qed.

(** ** The summary of the result view *)

Lemma intensity_cases (strength : number) :
  ResultView.intensity strength =
  (if js_gt strength (JS.of_Z 70) then "Aggressive"
   else if js_gt strength (JS.of_Z 30) then "Balanced" else "Subtle")%string.
Proof. reflexivity. Qed.

(** More than 30 is less than or equal to 70 or more than 70: the three
    words of [getSummary] are told apart by the two thresholds. *)
Lemma js_gt_70_30 (strength : number) :
  js_gt strength (JS.of_Z 70) = true -> js_gt strength (JS.of_Z 30) = true.
Proof.
  unfold js_gt. destruct strength as [| | q |]; cbn; try discriminate;
    try reflexivity.
  unfold JS.Qc_of_Z. qc_cases; subst; try discriminate; try reflexivity;
    intros _; exfalso; qc_order.
Qed.

(** For every mode and every strength -- [NaN] included -- the summary
    names exactly one intensity, in lower case: aggressive above 70,
    balanced above 30 and up to 70, subtle otherwise. *)
Theorem summary_names_intensity :
  forall (mode : ConfigurationPanel.EnhancementMode) (strength : number),
    includes (ResultView.getSummary mode strength) "aggressive" =
      js_gt strength (JS.of_Z 70) /\
    includes (ResultView.getSummary mode strength) "balanced" =
      (js_gt strength (JS.of_Z 30) && negb (js_gt strength (JS.of_Z 70))) /\
    includes (ResultView.getSummary mode strength) "subtle" =
      negb (js_gt strength (JS.of_Z 30)).
Proof.
  intros mode strength. unfold ResultView.getSummary.
  rewrite intensity_cases.
  pose proof (js_gt_70_30 strength) as H.
  destruct (js_gt strength (JS.of_Z 70)).
  - rewrite H by reflexivity. now destruct mode; vm_compute.
  - destruct (js_gt strength (JS.of_Z 30)); now destruct mode; vm_compute.
Qed.

(** ** Downloading *)

Lemma remove_appended (node : nat) (l : list nat) :
  ~ In node l -> List.remove Nat.eq_dec node (l ++ [node]) = l.
Proof.
  intros Hn. rewrite List.remove_app. cbn.
  destruct (Nat.eq_dec node node) as [_ | Hne]; [| contradiction].
  rewrite List.notin_remove by assumption. apply app_nil_r.
Qed.

(** With an address, [handleDownload] starts exactly one download, of
    that address under the name [PixelLift-enhanced.png], leaves the
    children of [document.body] as they were, shows the feedback and
    schedules one timeout of 2000 ms; with an empty address it does
    nothing at all. *)
Theorem handleDownload_effect :
  forall (enhancedUrl : string) (link : nat) (p : ResultView.page),
    ~ In link (ResultView.body p) ->
    ResultView.handleDownload enhancedUrl link p =
    if truthy enhancedUrl then
      ResultView.mkPage
        (ResultView.body p)
        (ResultView.downloads p ++ [(enhancedUrl, "PixelLift-enhanced.png"%string)])
        (ResultView.timeouts p ++ [2000%nat])
        true
    else p.
Proof.
  intros enhancedUrl link p Hfresh. unfold ResultView.handleDownload.
  destruct (truthy enhancedUrl); [| reflexivity].
  unfold ResultView.setTimeout, ResultView.setDownloaded, ResultView.remove,
    ResultView.click, ResultView.appendChild. cbn.
  now rewrite remove_appended.
Qed.

Lemma handleDownload_effect_witness :
  ~ In 7%nat (ResultView.body (ResultView.mkPage [1; 2; 3]%nat [] [] false)) /\
  ResultView.handleDownload "data:image/png;base64,AAAA" 7
    (ResultView.mkPage [1; 2; 3]%nat [] [] false) =
  ResultView.mkPage [1; 2; 3]%nat
    [("data:image/png;base64,AAAA"%string, "PixelLift-enhanced.png"%string)]
    [2000%nat] true.
Proof.
  assert (Hfresh :
    ~ In 7%nat (ResultView.body (ResultView.mkPage [1; 2; 3]%nat [] [] false))).
  { cbn. intros [E | [E | [E | []]]]; discriminate E. }
  split; [exact Hfresh |].
  apply (handleDownload_effect "data:image/png;base64,AAAA" 7
           (ResultView.mkPage [1; 2; 3]%nat [] [] false) Hfresh).
Defined.

(** ** Sessions of the application *)

Lemma truthy_eqb_empty (u : string) :
  String.eqb u EmptyString = negb (truthy u).
Proof. now destruct u. Qed.

Lemma remove_only (u : string) : List.remove string_dec u [u] = [].
Proof. cbn. now destruct (string_dec u u). Qed.

Lemma remove_first_of_two (u v : string) :
  u <> v -> List.remove string_dec u [u; v] = [v].
Proof.
  intros Hne. cbn. destruct (string_dec u u) as [_ | H]; [| contradiction].
  now destruct (string_dec u v).
Qed.

Lemma revoke_same (u : string) (live : list string) :
  App.revoke_previous u u live = live.
Proof. unfold App.revoke_previous. now rewrite String.eqb_refl. Qed.

Lemma session_invariant_initial : session_invariant App.initial_world.
Proof. repeat split. Qed.

Lemma session_invariant_step (ev : App.event) (w : App.world) :
  App.possible ev w = true ->
  session_invariant w ->
  session_invariant (App.handle ev w).
Proof.
  intros Hp (Hreq & Hurl & Hfile & Hwarn).
  destruct w as [a live flight loading alerts warnings].
  destruct a as [st f pv dark md str proc res dims summ].
  unfold one_request_at_most, urls_accounted, file_with_preview in *.
  cbn in Hreq, Hurl, Hfile, Hwarn. subst warnings.
  destruct ev as [f' url | wd ht | m | v | | r | | |]; cbn in Hp.
  - (* FileSelected *)
    apply andb_true_iff in Hp as [Hp Hfresh].
    apply andb_true_iff in Hp as [_ Hurl'].
    unfold session_invariant, one_request_at_most, urls_accounted,
      file_with_preview. cbn. rewrite Hurl'.
    repeat split; try assumption.
    unfold App.revoke_previous.
    destruct (String.eqb pv url) eqn:E.
    + apply String.eqb_eq in E. subst pv. rewrite Hurl' in Hurl. subst live.
      cbn in Hfresh. now rewrite String.eqb_refl in Hfresh.
    + apply String.eqb_neq in E. subst live.
      destruct (truthy pv); [| reflexivity].
      now apply remove_first_of_two.
  - (* ImageLoaded *)
    unfold session_invariant, one_request_at_most, urls_accounted,
      file_with_preview. cbn. rewrite revoke_same. now repeat split.
  - (* ModeChange *)
    unfold session_invariant, one_request_at_most, urls_accounted,
      file_with_preview. cbn. rewrite revoke_same. now repeat split.
  - (* StrengthChange *)
    unfold session_invariant, one_request_at_most, urls_accounted,
      file_with_preview. cbn. rewrite revoke_same. now repeat split.
  - (* Start *)
    apply andb_true_iff in Hp as [Hp Hproc].
    apply andb_true_iff in Hp as [_ Hsome].
    apply negb_true_iff in Hproc. cbn in Hproc, Hsome. subst proc.
    destruct f as [f |]; [| discriminate].
    cbn in Hfile. symmetry in Hfile.
    unfold session_invariant, one_request_at_most, urls_accounted,
      file_with_preview, App.handle, App.handleStartEnhancement.
    cbn. rewrite Hfile. cbn. rewrite revoke_same.
    destruct flight as [| r0 [| r1 flight]]; try discriminate;
      try contradiction.
    cbn. rewrite Hfile. rewrite Hfile in Hurl. now repeat split.
  - (* Settled *)
    destruct flight as [| r0 [| r1 flight]]; try discriminate;
      try contradiction.
    unfold session_invariant, one_request_at_most, urls_accounted,
      file_with_preview.
    destruct r; cbn; rewrite revoke_same; now repeat split.
  - (* Adjust *)
    unfold session_invariant, one_request_at_most, urls_accounted,
      file_with_preview. cbn. rewrite revoke_same. now repeat split.
  - (* Reset *)
    unfold session_invariant, one_request_at_most, urls_accounted,
      file_with_preview. cbn.
    repeat split; try assumption.
    unfold App.revoke_previous. rewrite truthy_eqb_empty. subst live.
    destruct (truthy pv); cbn; [apply remove_only | reflexivity].
  - (* ToggleTheme *)
    unfold session_invariant, one_request_at_most, urls_accounted,
      file_with_preview. cbn. rewrite revoke_same. now repeat split.
Qed.

Lemma session_invariant_kept (evs : list App.event) :
  forall w w' : App.world,
    session_invariant w ->
    App.session evs w = Some w' ->
    session_invariant w'.
Proof.
  induction evs as [| ev evs IH]; intros w w' Hinv Hs; cbn in Hs.
  - now injection Hs as <-.
  - destruct (App.possible ev w) eqn:Hp; [| discriminate].
    apply (IH (App.handle ev w)); [| exact Hs].
    now apply session_invariant_step.
Qed.

(** In every session there is at most one request unanswered, and
    [isProcessing] holds exactly while there is one: the Start button,
    disabled while [isProcessing], cannot send a second request, and
    neither a reset nor a new file clears the flag of a request that is
    still out. *)
Theorem session_one_request_at_most :
  forall (evs : list App.event) (w : App.world),
    App.session evs App.initial_world = Some w ->
    one_request_at_most w.
Proof.
  intros evs w Hs.
  now destruct (session_invariant_kept evs App.initial_world w
                  session_invariant_initial Hs).
Qed.

(** In every session the object URLs created and not revoked are just
    the preview URL in use: every earlier one has been revoked, and after
    a reset none is alive. *)
Theorem session_urls_accounted :
  forall (evs : list App.event) (w : App.world),
    App.session evs App.initial_world = Some w ->
    urls_accounted w.
Proof.
  intros evs w Hs.
  now destruct (session_invariant_kept evs App.initial_world w
                  session_invariant_initial Hs) as (_ & H & _).
Qed.

(** In every session the guard of [handleStartEnhancement] never fires:
    whenever the Start button can be clicked a file and its preview URL
    are set, so [console.warn] is never called. *)
Theorem session_never_warns :
  forall (evs : list App.event) (w : App.world),
    App.session evs App.initial_world = Some w ->
    file_with_preview w /\ App.warnings w = 0%nat.
Proof.
  intros evs w Hs.
  now destruct (session_invariant_kept evs App.initial_world w
                  session_invariant_initial Hs) as (_ & _ & H1 & H2).
Qed.

Lemma session_one_request_at_most_witness :
  exists w : App.world,
    App.session sample_session App.initial_world = Some w /\
    one_request_at_most w.
Proof.
  eexists. split; [vm_compute; reflexivity |].
  apply (session_one_request_at_most sample_session). vm_compute. reflexivity.
Defined.

Lemma session_urls_accounted_witness :
  exists w : App.world,
    App.session sample_session App.initial_world = Some w /\
    urls_accounted w.
Proof.
  eexists. split; [vm_compute; reflexivity |].
  apply (session_urls_accounted sample_session). vm_compute. reflexivity.
Defined.

Lemma session_never_warns_witness :
  exists w : App.world,
    App.session sample_session App.initial_world = Some w /\
    file_with_preview w /\ App.warnings w = 0%nat.
Proof.
  eexists. split; [vm_compute; reflexivity |].
  apply (session_never_warns sample_session). vm_compute. reflexivity.
Defined.

Lemma revoke_from_empty (u : string) (live : list string) :
  App.revoke_previous EmptyString u live = live.
Proof. unfold App.revoke_previous. now destruct (String.eqb EmptyString u). Qed.

Lemma revoke_to_empty (u : string) :
  truthy u = true -> App.revoke_previous u EmptyString [u] = [].
Proof.
  intros Hu. unfold App.revoke_previous.
  rewrite truthy_eqb_empty, Hu. cbn [negb]. apply remove_only.
Qed.

Lemma session_app (evs1 evs2 : list App.event) (w : App.world) :
  App.session (evs1 ++ evs2) w =
  match App.session evs1 w with
  | Some w1 => App.session evs2 w1
  | None => None
  end.
Proof.
  revert w. induction evs1 as [| ev evs1 IH]; intros w; [reflexivity |].
  cbn [App.session app]. now destruct (App.possible ev w).
Qed.

(** A reset does not cancel a request.  If, while a request for a first
    file is out, the user resets and selects a second file, the answer to
    that request is still applied: the application moves to the result
    step and shows the image made from the first file as the result for
    the second. *)
Theorem answer_after_reset_is_applied :
  forall (f1 f2 : App.File) (u1 u2 image_data : string)
         (summary : option string),
    truthy u1 = true ->
    truthy u2 = true ->
    App.session [App.FileSelected f1 u1; App.Start; App.Reset;
                 App.FileSelected f2 u2] App.initial_world =
    Some (App.mkWorld
            (App.mkApp App.configure (Some f2) u2 true
                       ConfigurationPanel.photo_enhancer 50%js true
                       EmptyString (0%js, 0%js) EmptyString)
            [u2] [App.mkRequest f1 "photo" 50%js] 2 0 0) /\
    App.session [App.FileSelected f1 u1; App.Start; App.Reset;
                 App.FileSelected f2 u2;
                 App.Settled (App.Json image_data summary)]
                App.initial_world =
    Some (App.mkWorld
            (App.mkApp App.result (Some f2) u2 true
                       ConfigurationPanel.photo_enhancer 50%js false
                       image_data (0%js, 0%js)
                       (App.summary_or_empty summary))
            [u2] [] 2 0 0).
Proof.
  intros f1 f2 u1 u2 image_data summary H1 H2.
  destruct u1 as [| c1 u1]; [discriminate |].
  destruct u2 as [| c2 u2]; [discriminate |].
  assert (E : App.session [App.FileSelected f1 (String c1 u1); App.Start;
                           App.Reset; App.FileSelected f2 (String c2 u2)]
                          App.initial_world =
              Some (App.mkWorld
                      (App.mkApp App.configure (Some f2) (String c2 u2) true
                         ConfigurationPanel.photo_enhancer 50%js true
                         EmptyString (0%js, 0%js) EmptyString)
                      [String c2 u2] [App.mkRequest f1 "photo" 50%js] 2 0 0)).
  { cbn -[App.revoke_previous String.eqb].
    rewrite !revoke_from_empty, !revoke_same.
    rewrite (revoke_to_empty (String c1 u1) eq_refl).
    unfold App.handleFileSelect, App.handleReset, App.commit.
    cbn -[App.revoke_previous String.eqb].
    repeat progress
      (rewrite ?revoke_same, ?revoke_from_empty,
         ?(revoke_to_empty (String c1 u1) eq_refl);
       cbn -[App.revoke_previous String.eqb]).
    reflexivity. }
  split; [exact E |].
  change [App.FileSelected f1 (String c1 u1); App.Start; App.Reset;
          App.FileSelected f2 (String c2 u2);
          App.Settled (App.Json image_data summary)]
    with ([App.FileSelected f1 (String c1 u1); App.Start; App.Reset;
           App.FileSelected f2 (String c2 u2)] ++
          [App.Settled (App.Json image_data summary)]).
  rewrite session_app, E.
  cbn -[App.revoke_previous String.eqb]. unfold App.commit.
  cbn -[App.revoke_previous String.eqb]. now rewrite revoke_same.
Qed.


Lemma answer_after_reset_is_applied_witness :
  truthy "blob:1" = true /\
  truthy "blob:2" = true /\
  App.session [App.FileSelected some_file "blob:1"; App.Start; App.Reset;
               App.FileSelected other_file "blob:2";
               App.Settled (App.Json "data:image/png;base64,AAAA" None)]
              App.initial_world =
  Some (App.mkWorld
          (App.mkApp App.result (Some other_file) "blob:2" true
                     ConfigurationPanel.photo_enhancer 50%js false
                     "data:image/png;base64,AAAA" (0%js, 0%js)
                     (App.summary_or_empty None))
          ["blob:2"%string] [] 2 0 0).
Proof.
  split; [reflexivity |]. split; [reflexivity |].
  apply (proj2 (answer_after_reset_is_applied some_file other_file
                  "blob:1" "blob:2" "data:image/png;base64,AAAA" None
                  eq_refl eq_refl)).
Defined.

(** A request that fails -- [fetch] rejects, the status is not ok, or the
    body is not JSON -- changes nothing but the flag: the step, the file,
    the settings and the previous result stay, the object URLs stay alive,
    [isProcessing] is false afterwards and exactly one alert is shown. *)
Theorem failed_request_keeps_state :
  forall (r : App.response) (w : App.world),
    is_failure r = true ->
    App.settle r w =
    {| App.app :=
         {| App.step := App.step (App.app w);
            App.file := App.file (App.app w);
            App.previewUrl := App.previewUrl (App.app w);
            App.isDarkMode := App.isDarkMode (App.app w);
            App.mode := App.mode (App.app w);
            App.strength := App.strength (App.app w);
            App.isProcessing := false;
            App.resultUrl := App.resultUrl (App.app w);
            App.dimensions := App.dimensions (App.app w);
            App.resultSummary := App.resultSummary (App.app w) |};
       App.live_urls := App.live_urls w;
       App.in_flight := List.tl (App.in_flight w);
       App.loading := App.loading w;
       App.alerts := S (App.alerts w);
       App.warnings := App.warnings w |}.
Proof.
  intros r w Hf. destruct r; try discriminate;
    unfold App.settle, App.commit; cbn -[App.revoke_previous];
    now rewrite revoke_same.
Qed.

(** The request for [some_file] comes back with an error status. *)
Lemma failed_request_keeps_state_witness :
  is_failure App.NotOk = true /\
  App.settle App.NotOk waiting_world =
  {| App.app :=
       {| App.step := App.configure;
          App.file := Some some_file;
          App.previewUrl := "blob:1";
          App.isDarkMode := true;
          App.mode := ConfigurationPanel.photo_enhancer;
          App.strength := 50%js;
          App.isProcessing := false;
          App.resultUrl := EmptyString;
          App.dimensions := (0%js, 0%js);
          App.resultSummary := EmptyString |};
     App.live_urls := ["blob:1"%string];
     App.in_flight := [];
     App.loading := 1;
     App.alerts := 1;
     App.warnings := 0 |}.
Proof.
  split; [reflexivity |].
  apply (failed_request_keeps_state App.NotOk waiting_world). reflexivity.
Defined.
